(** * xfsvol: the XFS project-quota controller and the plugin driver's lock

    A shallow embedding of [xfs/control.go] (the quota controller) and of
    the locking discipline of the volume plugin driver, together with the
    properties the specification states about them.

    Conventions.
    - [uint32] values are numbers in [N]; the one arithmetic operation the
      controller performs, [lastProjectId + 1], is written with its
      wrap-around modulo [2^32].
    - Go's [map[string]uint32] is a [gmap string N].
    - The controller is a state machine over a [Control] value (the
      receiver [c *Control]) and a [World]: the kernel/filesystem state
      plus the chronological list of the calls issued to it.
    - The cgo wrappers of package [xfs] ([MakeBackingFsDev],
      [GetProjectId], [SetProjectId], [GetProjectQuota],
      [SetProjectQuota]) and the two standard-library calls
      ([ioutil.ReadDir], [filepath.Join]) are an interface, [Kernel]; the
      controller is verified against every implementation of it.
    - [log.Printf] calls have no effect on the modelled state and are
      left out. *)

From Stdlib Require Import NArith Lia Sorted.
From stdpp Require Import gmap strings list fin_maps.

(** ** Machine integers *)

Definition uint32_modulus : N := (2 ^ 32)%N.
Definition uint32_max : N := (uint32_modulus - 1)%N.

(** [a + b] on [uint32] operands: Go wraps around silently. *)
Definition uint32_add (a b : N) : N := ((a + b) mod uint32_modulus)%N.

(** ** Values exchanged with the kernel *)

(** [xfs.Quota]: hard limits, bytes and inode count. *)
Record Quota := { Size : N; INode : N }.

(** The part of [os.FileInfo] the scan looks at. *)
Record FileInfo := { Name : string; IsDir : bool }.

(** Arguments of a format string, kept unrendered. *)
Inductive fmt_arg :=
| AStr (s : string)
| AQuota (q : Quota).

(** Go [error] values: a cause reported by a system call wrapper, a fresh
    [errors.Errorf], or an [errors.Wrapf] around an earlier error. *)
Inductive error :=
| Errno (code : string)
| Errorf (format : string) (args : list fmt_arg)
| Wrapf (cause : error) (format : string) (args : list fmt_arg).

(** ** The kernel interface *)

(** What package [xfs] asks of the operating system.  Writers return the
    new kernel state together with [Some err] on failure ([None] is Go's
    [nil] error); readers do not change the state. *)
Class Kernel (K : Type) := {
  k_MakeBackingFsDev : string → string → K → option error * K;
  k_ReadDir : string → K → error + list FileInfo;
  k_Join : string → string → string;
  k_GetProjectId : string → K → error + N;
  k_SetProjectId : string → N → K → option error * K;
  k_GetProjectQuota : string → N → K → error + Quota;
  k_SetProjectQuota : string → N → Quota → K → option error * K;
}.

(** The calls the controller can issue, as recorded in the trace. *)
Inductive syscall :=
| CallMakeBackingFsDev (basePath name : string)
| CallReadDir (root : string)
| CallGetProjectId (path : string)
| CallSetProjectId (path : string) (projectId : N)
| CallGetProjectQuota (dev : string) (projectId : N)
| CallSetProjectQuota (dev : string) (projectId : N) (quota : Quota).

Record World (K : Type) := mkWorld {
  kernel : K;
  trace : list syscall;
}.
Arguments mkWorld {K} _ _.
Arguments kernel {K} _.
Arguments trace {K} _.

(** ** The controller state *)

(** [const blockDeviceName = "__control-device"] *)
Definition blockDeviceName : string := "__control-device".

Record Control := mkControl {
  backingFsBlockDev : string;
  projectIdCache : gmap string N;
  lastProjectId : N;
}.

Record ControlConfig := {
  StartingProjectId : option N;
  BasePath : string;
}.

(** The zero value of [Control], which the named result [c] of
    [NewControl] starts from.  A nil map reads like the empty map. *)
Definition zeroControl : Control :=
  {| backingFsBlockDev := ""; projectIdCache := ∅; lastProjectId := 0%N |}.

Definition set_backingFsBlockDev (dev : string) (c : Control) : Control :=
  {| backingFsBlockDev := dev;
     projectIdCache := projectIdCache c;
     lastProjectId := lastProjectId c |}.

Definition set_projectIdCache (m : gmap string N) (c : Control) : Control :=
  {| backingFsBlockDev := backingFsBlockDev c;
     projectIdCache := m;
     lastProjectId := lastProjectId c |}.

Definition set_lastProjectId (n : N) (c : Control) : Control :=
  {| backingFsBlockDev := backingFsBlockDev c;
     projectIdCache := projectIdCache c;
     lastProjectId := n |}.

Section Controller.
Context {K : Type} `{!Kernel K}.

(** *** Traced calls into the kernel *)

Definition record (call : syscall) (k : K) (w : World K) : World K :=
  mkWorld k (trace w ++ [call]).

Definition MakeBackingFsDev (basePath name : string) (w : World K)
  : option error * World K :=
  let (err, k) := k_MakeBackingFsDev basePath name (kernel w) in
  (err, record (CallMakeBackingFsDev basePath name) k w).

Definition ReadDir (root : string) (w : World K)
  : (error + list FileInfo) * World K :=
  (k_ReadDir root (kernel w), record (CallReadDir root) (kernel w) w).

Definition GetProjectId (path : string) (w : World K)
  : (error + N) * World K :=
  (k_GetProjectId path (kernel w),
   record (CallGetProjectId path) (kernel w) w).

Definition SetProjectId (path : string) (projectId : N) (w : World K)
  : option error * World K :=
  let (err, k) := k_SetProjectId path projectId (kernel w) in
  (err, record (CallSetProjectId path projectId) k w).

Definition GetProjectQuota (dev : string) (projectId : N) (w : World K)
  : (error + Quota) * World K :=
  (k_GetProjectQuota dev projectId (kernel w),
   record (CallGetProjectQuota dev projectId) (kernel w) w).

Definition SetProjectQuota (dev : string) (projectId : N) (quota : Quota)
    (w : World K) : option error * World K :=
  let (err, k) := k_SetProjectQuota dev projectId quota (kernel w) in
  (err, record (CallSetProjectQuota dev projectId quota) k w).

(** *** [GeneratePathToProjectIdMap] *)

(** The body of [for _, file := range files]: [mapping] is the map
    built so far.  An error from [GetProjectId] returns at once, with
    the partial map. *)
Fixpoint scanFiles (root : string) (files : list FileInfo)
    (mapping : gmap string N) (w : World K)
  : gmap string N * option error * World K :=
  match files with
  | [] => (mapping, None, w)
  | file :: rest =>
      if negb (IsDir file) then scanFiles root rest mapping w
      else
        let absPath := k_Join root (Name file) in
        match GetProjectId absPath w with
        | (inl err, w1) =>
            (mapping,
             Some (Wrapf err "failed to retrieve projectid for directory %s"
                     [AStr absPath]),
             w1)
        | (inr projectId, w1) =>
            if (0 <? projectId)%N
            then scanFiles root rest (<[absPath := projectId]> mapping) w1
            else scanFiles root rest mapping w1
        end
  end.

Definition GeneratePathToProjectIdMap (root : string) (w : World K)
  : gmap string N * option error * World K :=
  match ReadDir root w with
  | (inl err, w1) =>
      (∅,
       Some (Wrapf err "failed to list files and directories under path %s"
               [AStr root]),
       w1)
  | (inr files, w1) => scanFiles root files ∅ w1
  end.

(** *** [NewControl] *)

(** [for _, projectId := range c.projectIdCache]: Go visits the
    entries in an unspecified order; [map_fold] fixes one. *)
Definition raiseLastProjectId (cache : gmap string N) (last : N) : N :=
  map_fold (λ _ projectId last,
              if (last <? projectId)%N then projectId else last)
           last cache.

Definition NewControl (cfg : ControlConfig) (w : World K)
  : Control * option error * World K :=
  let c := zeroControl in
  if decide (BasePath cfg = "") then
    (c, Some (Errorf "BasePath must be provided" []), w)
  else
    let c := match StartingProjectId cfg with
             | Some start => set_lastProjectId start c
             | None => c
             end in
    match MakeBackingFsDev (BasePath cfg) blockDeviceName w with
    | (Some err, w1) =>
        (c,
         Some (Wrapf err "failed to create backingfs dev for base path %s"
                 [AStr (BasePath cfg)]),
         w1)
    | (None, w1) =>
        let c := set_backingFsBlockDev
                   (k_Join (BasePath cfg) blockDeviceName) c in
        match GeneratePathToProjectIdMap (BasePath cfg) w1 with
        | (mapping, Some err, w2) =>
            (set_projectIdCache mapping c,
             Some (Wrapf err
                     "failed to create projectid cache from basepath %s"
                     [AStr (BasePath cfg)]),
             w2)
        | (mapping, None, w2) =>
            let c := set_projectIdCache mapping c in
            let c := set_lastProjectId
                       (raiseLastProjectId (projectIdCache c)
                          (lastProjectId c)) c in
            (c, None, w2)
        end
    end.

(** *** Methods of [*Control] *)

Definition GetBackingFsBlockDev (c : Control) : string * Control :=
  (backingFsBlockDev c, c).

Definition GetQuota (targetPath : string) (c : Control) (w : World K)
  : (error + Quota) * Control * World K :=
  match projectIdCache c !! targetPath with
  | None =>
      (inl (Errorf "no projectId associated with the path %s"
              [AStr targetPath]),
       c, w)
  | Some projectId =>
      match GetProjectQuota (backingFsBlockDev c) projectId w with
      | (inl err, w1) =>
          (inl (Wrapf err "failed to retrieve quota" []), c, w1)
      | (inr q, w1) => (inr q, c, w1)
      end
  end.

(** The [if !ok { ... }] block of [SetQuota]: the project id to use, or
    the error it returns with. *)
Definition bindProjectId (targetPath : string) (c : Control) (w : World K)
  : (error + N) * Control * World K :=
  match projectIdCache c !! targetPath with
  | Some projectId => (inr projectId, c, w)
  | None =>
      let projectId := uint32_add (lastProjectId c) 1 in
      match SetProjectId targetPath projectId w with
      | (Some err, w1) =>
          (inl (Wrapf err "couldn't set project id to path %s"
                  [AStr targetPath]),
           c, w1)
      | (None, w1) =>
          let c := set_projectIdCache
                     (<[targetPath := projectId]> (projectIdCache c)) c in
          let c := set_lastProjectId projectId c in
          (inr projectId, c, w1)
      end
  end.

Definition SetQuota (targetPath : string) (quota : Quota) (c : Control)
    (w : World K) : option error * Control * World K :=
  match bindProjectId targetPath c w with
  | (inl err, c1, w1) => (Some err, c1, w1)
  | (inr projectId, c1, w1) =>
      match SetProjectQuota (backingFsBlockDev c1) projectId quota w1 with
      | (Some err, w2) =>
          (Some (Wrapf err
                   "Couldn't set project quota %+v for target-path %s"
                   [AQuota quota; AStr targetPath]),
           c1, w2)
      | (None, w2) => (None, c1, w2)
      end
  end.

End Controller.

(** ** A kernel with a quota store *)

(** Modelled from the spec: [SetProjectQuota] and [GetProjectQuota] are
    not part of the sources at hand.  The kernel's quota store is state
    written by the quota-set call and read by the quota-get call: what a
    successful quota-set call wrote for a device and project id is what
    the next quota-get call for the same device and id reports. *)
Class QuotaStore (K : Type) `{!Kernel K} : Prop :=
  get_after_set :
    ∀ dev projectId quota k k',
      k_SetProjectQuota dev projectId quota k = (None, k') →
      k_GetProjectQuota dev projectId k' = inr quota.

(** Modelled from the spec: the cgo wrappers [MakeBackingFsDev],
    [GetProjectId], [SetProjectId], [GetProjectQuota] and
    [SetProjectQuota] of package [xfs], and the filesystem under them,
    are not part of the sources at hand.  [Disk] is the state the
    specification describes: the directory tree, the on-disk project-id
    attribute of each directory, and the per-device table of hard limits
    kept by the filesystem when project quotas are enabled. *)
Record Disk := mkDisk {
  listing : gmap string (list FileInfo);
  projid : gmap string N;
  limits : gmap (string * N) Quota;
  pquota : bool;
}.

Module DiskModel.

Definition set_listing (l : gmap string (list FileInfo)) (d : Disk) : Disk :=
  mkDisk l (projid d) (limits d) (pquota d).
Definition set_projid (p : gmap string N) (d : Disk) : Disk :=
  mkDisk (listing d) p (limits d) (pquota d).
Definition set_limits (l : gmap (string * N) Quota) (d : Disk) : Disk :=
  mkDisk (listing d) (projid d) l (pquota d).

(** [filepath.Join] on a clean, non-root directory and an entry name. *)
Definition join (root name : string) : string :=
  (root +:+ "/" +:+ name)%string.

Definition hasName (name : string) (files : list FileInfo) : bool :=
  bool_decide (name ∈ Name <$> files).

(** Modelled from the spec: "Creates BackingDevice under basePath if
    absent (idempotent: reusing an existing control file is not an
    error)"; a missing base path is an error. *)
Definition makeBackingFsDev (basePath name : string) (d : Disk)
  : option error * Disk :=
  match listing d !! basePath with
  | None => (Some (Errno "ENOENT"), d)
  | Some files =>
      if hasName name files then (None, d)
      else (None,
            set_listing
              (<[basePath := files ++ [{| Name := name; IsDir := false |}]]>
                 (listing d)) d)
  end.

Definition readDir (root : string) (d : Disk) : error + list FileInfo :=
  match listing d !! root with
  | None => inl (Errno "ENOENT")
  | Some files => inr files
  end.

(** Modelled from the spec: reads "the on-disk project-id attribute
    stored by the filesystem on each directory inode". *)
Definition getProjectId (path : string) (d : Disk) : error + N :=
  match projid d !! path with
  | None => inl (Errno "ENOTDIR")
  | Some projectId => inr projectId
  end.

(** Modelled from the spec: the attribute-set call "fails IOError if
    path is not a directory". *)
Definition setProjectId (path : string) (projectId : N) (d : Disk)
  : option error * Disk :=
  match projid d !! path with
  | None => (Some (Errno "ENOTDIR"), d)
  | Some _ => (None, set_projid (<[path := projectId]> (projid d)) d)
  end.

(** Modelled from the spec: the quota-get call "returns the reported
    (SizeBytes, INodeLimit)"; it fails when the filesystem does not
    support project quotas or holds no limits for the id. *)
Definition getProjectQuota (dev : string) (projectId : N) (d : Disk)
  : error + Quota :=
  if pquota d then
    match limits d !! (dev, projectId) with
    | None => inl (Errno "ENOENT")
    | Some q => inr q
    end
  else inl (Errno "ENOSYS").

(** Modelled from the spec: the quota-set call stores "the requested
    (SizeBytes, INodeLimit) as hard limits" for the project id; it
    fails when the filesystem does not support project quotas. *)
Definition setProjectQuota (dev : string) (projectId : N) (quota : Quota)
    (d : Disk) : option error * Disk :=
  if pquota d then
    (None, set_limits (<[(dev, projectId) := quota]> (limits d)) d)
  else (Some (Errno "ENOSYS"), d).

End DiskModel.

#[global] Instance Disk_Kernel : Kernel Disk := {|
  k_MakeBackingFsDev := DiskModel.makeBackingFsDev;
  k_ReadDir := DiskModel.readDir;
  k_Join := DiskModel.join;
  k_GetProjectId := DiskModel.getProjectId;
  k_SetProjectId := DiskModel.setProjectId;
  k_GetProjectQuota := DiskModel.getProjectQuota;
  k_SetProjectQuota := DiskModel.setProjectQuota;
|}.

(** ** Sample states used to run the controller *)

Module Sample.

(** A volume root holding directory [a], whose project id is [aId],
    the directories [b], [c] and [z], which have none yet, and a regular
    file [f]. *)
Definition disk (aId : N) (enabled : bool) : Disk :=
  {| listing := {[ "/r" := [ {| Name := "a"; IsDir := true |};
                             {| Name := "b"; IsDir := true |};
                             {| Name := "c"; IsDir := true |};
                             {| Name := "f"; IsDir := false |};
                             {| Name := "z"; IsDir := true |} ] ]};
     projid := {[ "/r/a" := aId; "/r/b" := 0%N; "/r/c" := 0%N;
                  "/r/z" := 0%N ]};
     limits := ∅;
     pquota := enabled |}.

Definition world (aId : N) (enabled : bool) : World Disk :=
  mkWorld (disk aId enabled) [].

Definition config (start : option N) : ControlConfig :=
  {| StartingProjectId := start; BasePath := "/r" |}.

Definition quota10M : Quota := {| Size := 10485760; INode := 0 |}.
Definition quota20M : Quota := {| Size := 20971520; INode := 100 |}.

End Sample.

(** ** Error kinds of the specification, as the code spells them *)

(** "no project id associated with path" *)
Definition NotFoundError (targetPath : string) : error :=
  Errorf "no projectId associated with the path %s" [AStr targetPath].

(** A failed quota-get call, wrapped by [GetQuota]. *)
Definition QuotaGetError (cause : error) : error :=
  Wrapf cause "failed to retrieve quota" [].

(** A failed quota-set call, wrapped by [SetQuota]. *)
Definition QuotaSetError (quota : Quota) (targetPath : string) (cause : error)
  : error :=
  Wrapf cause "Couldn't set project quota %+v for target-path %s"
    [AQuota quota; AStr targetPath].

(** A failed attribute-bind call, wrapped by [SetQuota]. *)
Definition BindError (targetPath : string) (cause : error) : error :=
  Wrapf cause "couldn't set project id to path %s" [AStr targetPath].

(** The methods a holder of a [*Control] can invoke. *)
Inductive method :=
| MGetBackingFsBlockDev
| MGetQuota (targetPath : string)
| MSetQuota (targetPath : string) (quota : Quota).

Definition invoke {K : Type} `{!Kernel K} (m : method) (c : Control)
    (w : World K) : Control * World K :=
  match m with
  | MGetBackingFsBlockDev => (snd (GetBackingFsBlockDev c), w)
  | MGetQuota targetPath =>
      let '(_, c1, w1) := GetQuota targetPath c w in (c1, w1)
  | MSetQuota targetPath quota =>
      let '(_, c1, w1) := SetQuota targetPath quota c w in (c1, w1)
  end.

(** *** Runs of the controller *)

(** What can happen to a controller during its life.  No code of the
    controller removes a cache entry; [EvForget] is the removal a
    deleting caller would perform, kept here so that runs with removals
    are covered too. *)
Inductive event :=
| EvSetQuota (targetPath : string) (quota : Quota)
| EvGetQuota (targetPath : string)
| EvForget (targetPath : string).

(** The binding a [SetQuota] call created, if it created one: the path
    was not cached before the call and is cached after it. *)
Definition allocated (targetPath : string) (before after : Control)
  : list (string * N) :=
  match projectIdCache before !! targetPath with
  | Some _ => []
  | None =>
      match projectIdCache after !! targetPath with
      | Some projectId => [(targetPath, projectId)]
      | None => []
      end
  end.

(** Runs the events in order and collects the bindings created, oldest
    first. *)
Fixpoint lifetime {K : Type} `{!Kernel K} (events : list event) (c : Control)
    (w : World K) : list (string * N) * Control * World K :=
  match events with
  | [] => ([], c, w)
  | ev :: rest =>
      let '(new, c1, w1) :=
        match ev with
        | EvSetQuota targetPath quota =>
            let '(_, c1, w1) := SetQuota targetPath quota c w in
            (allocated targetPath c c1, c1, w1)
        | EvGetQuota targetPath =>
            let '(_, c1, w1) := GetQuota targetPath c w in ([], c1, w1)
        | EvForget targetPath =>
            ([], set_projectIdCache (delete targetPath (projectIdCache c)) c,
             w)
        end in
      let '(later, c2, w2) := lifetime rest c1 w1 in
      (new ++ later, c2, w2)
  end.

(** [SetQuota] on each request in turn, stopping at the first failure. *)
Fixpoint SetQuotaAll {K : Type} `{!Kernel K} (reqs : list (string * Quota))
    (c : Control) (w : World K) : option (Control * World K) :=
  match reqs with
  | [] => Some (c, w)
  | (targetPath, quota) :: rest =>
      match SetQuota targetPath quota c w with
      | (None, c1, w1) => SetQuotaAll rest c1 w1
      | (Some _, _, _) => None
      end
  end.

(** *** What the scan and the counter are compared with *)

(** [scanned k root files p id]: some directory among [files] has
    absolute path [p] and a non-zero on-disk project id [id]. *)
Definition scanned {K : Type} `{!Kernel K} (k : K) (root : string)
    (files : list FileInfo) (p : string) (id : N) : Prop :=
  ∃ file, file ∈ files ∧ IsDir file = true
          ∧ p = k_Join root (Name file)
          ∧ k_GetProjectId p k = inr id ∧ id ≠ 0%N.

(** [is_max_of start cache last]: [last] is the largest of [start] and
    the ids in [cache]. *)
Definition is_max_of (start : N) (cache : gmap string N) (last : N) : Prop :=
  (start ≤ last)%N
  ∧ (∀ p id, cache !! p = Some id → (id ≤ last)%N)
  ∧ (last = start ∨ ∃ p, cache !! p = Some last).

(** ** The controller at work on the sample disk *)

Module Run.
Import Sample.

(** A controller as [NewControl] leaves it over the sample root when
    directory [a] carries project id 7. *)
Definition control : Control :=
  {| backingFsBlockDev := "/r/__control-device";
     projectIdCache := {[ "/r/a" := 7%N ]};
     lastProjectId := 7%N |}.

Definition afterSet : option error * Control * World Disk :=
  SetQuota "/r/b" quota10M control (world 7 true).

(** The same call on a mount without project quotas: the bind goes
    through, the quota-set call fails. *)
Definition afterFailedSet : option error * Control * World Disk :=
  SetQuota "/r/b" quota10M control (world 7 false).

(** The disk once [b] carries project id 8. *)
Definition diskBound : Disk :=
  DiskModel.set_projid (<["/r/b" := 8%N]> (projid (disk 7 false)))
    (disk 7 false).

(** A controller started with the largest [uint32] as its floor, over
    a root where directory [a] already carries project id 1. *)
Definition topConfig : ControlConfig := config (Some 4294967295%N).
Definition top : Control * option error * World Disk :=
  NewControl topConfig (world 1 true).
Definition topB : option error * Control * World Disk :=
  SetQuota "/r/b" quota10M (fst (fst top)) (snd top).
Definition topC : option error * Control * World Disk :=
  SetQuota "/r/c" quota20M (snd (fst topB)) (snd topB).

End Run.

(** ** The plugin driver and its lock *)

(** The driver of the volume plugin: [Driver] embeds a [sync.Mutex] by
    value, every method is declared on the value receiver [(d Driver)],
    and [main] hands the [Driver] value to [v.NewHandler].  Requests are
    served concurrently, one goroutine per call.

    A goroutine is the list of atomic steps its method still has to
    run, together with the receiver the method was entered with.  The
    server interleaves the goroutines in any order. *)
Module Plugin.

Inductive Mutex := Unlocked | Locked.

Record Driver := mkDriver {
  defaultSize : string;
  manager : nat;        (* [*manager.Manager]: the address of the manager *)
  mutex : Mutex;        (* the embedded [sync.Mutex] *)
}.

Definition set_mutex (m : Mutex) (d : Driver) : Driver :=
  mkDriver (defaultSize d) (manager d) m.

(** The methods of [*manager.Manager] the driver calls. *)
Inductive managerCall := MgrCreate | MgrList | MgrGet | MgrDelete.

Inductive request :=
| Create (name : string)
| List
| Get (name : string)
| Remove (name : string)
| Path (name : string)
| Mount (name : string)
| Unmount (name : string)
| Capabilities.

Inductive instr :=
| FromHumanSize                 (* [manager.FromHumanSize(size)] *)
| Lock                          (* [d.Lock()] *)
| Enter (call : managerCall)    (* the call into [d.manager] starts *)
| Leave (call : managerCall)    (* and returns *)
| Unlock.                       (* the deferred [d.Unlock()] *)

(** The steps of each method, on the path where nothing fails. *)
Definition body (r : request) : list instr :=
  match r with
  | Create _ => [FromHumanSize; Lock; Enter MgrCreate; Leave MgrCreate; Unlock]
  | List => [Lock; Enter MgrList; Leave MgrList; Unlock]
  | Get _ => [Lock; Enter MgrGet; Leave MgrGet; Unlock]
  | Remove _ => [Lock; Enter MgrDelete; Leave MgrDelete; Unlock]
  | Path _ => [Lock; Enter MgrGet; Leave MgrGet; Unlock]
  | Mount _ => [Lock; Enter MgrGet; Leave MgrGet; Unlock]
  | Unmount _ => [Lock; Unlock]
  | Capabilities => []
  end.

(** How a method receives the driver.  The source declares every
    method as [func (d Driver) ...]: the call copies the [Driver], its
    mutex included.  [ByPointer] is the declaration [func (d *Driver)
    ...], where all calls share the one [Driver]. *)
Inductive receiver := ByValue | ByPointer.

Record Goroutine := mkGoroutine {
  recv : Driver;          (* the method's own [d] *)
  todo : list instr;
}.

Record Server := mkServer {
  handler : Driver;       (* the driver held by the handler *)
  goroutines : list Goroutine;
}.

(** [NewDriver]'s result for a valid configuration: the zero mutex is
    unlocked. *)
Definition NewDriver (size : string) : Driver :=
  mkDriver size 0 Unlocked.

(** One goroutine per incoming request; entering the method copies
    the handler's driver into the receiver. *)
Definition serve (d : Driver) (reqs : list request) : Server :=
  mkServer d ((λ r, mkGoroutine d (body r)) <$> reqs).

(** Goroutine [i] runs its next step.  [None]: there is no such
    goroutine, it has finished, or it is blocked in [Lock]. *)
Definition step (rk : receiver) (i : nat) (s : Server) : option Server :=
  match goroutines s !! i with
  | None => None
  | Some g =>
      match todo g with
      | [] => None
      | Lock :: rest =>
          match rk with
          | ByValue =>
              match mutex (recv g) with
              | Locked => None
              | Unlocked =>
                  Some (mkServer (handler s)
                          (<[i := mkGoroutine (set_mutex Locked (recv g)) rest]>
                             (goroutines s)))
              end
          | ByPointer =>
              match mutex (handler s) with
              | Locked => None
              | Unlocked =>
                  Some (mkServer (set_mutex Locked (handler s))
                          (<[i := mkGoroutine (recv g) rest]> (goroutines s)))
              end
          end
      | Unlock :: rest =>
          match rk with
          | ByValue =>
              Some (mkServer (handler s)
                      (<[i := mkGoroutine (set_mutex Unlocked (recv g)) rest]>
                         (goroutines s)))
          | ByPointer =>
              Some (mkServer (set_mutex Unlocked (handler s))
                      (<[i := mkGoroutine (recv g) rest]> (goroutines s)))
          end
      | _ :: rest =>
          Some (mkServer (handler s)
                  (<[i := mkGoroutine (recv g) rest]> (goroutines s)))
      end
  end.

(** Runs a schedule: the goroutine to step, one after the other. *)
Fixpoint run (rk : receiver) (schedule : list nat) (s : Server)
  : option Server :=
  match schedule with
  | [] => Some s
  | i :: rest =>
      match step rk i s with
      | None => None
      | Some s1 => run rk rest s1
      end
  end.

(** A goroutine is inside the manager between [Enter] and [Leave]. *)
Definition inManager (g : Goroutine) : bool :=
  match todo g with
  | Leave _ :: _ => true
  | _ => false
  end.

(** It holds its lock from [Lock] to [Unlock]. *)
Definition holdsLock (g : Goroutine) : bool :=
  match todo g with
  | Enter _ :: _ | Leave _ :: _ | Unlock :: _ => true
  | _ => false
  end.

Definition weight (f : Goroutine → bool) (g : Goroutine) : nat :=
  if f g then 1 else 0.

(** How many goroutines satisfy [f]. *)
Fixpoint count (f : Goroutine → bool) (gs : list Goroutine) : nat :=
  match gs with
  | [] => 0
  | g :: rest => weight f g + count f rest
  end.

(** [bracketed held t]: in the steps [t], [Lock] and [Unlock]
    alternate, starting from a lock that is held or not, the manager is
    called only while it is held, and it is released at the end. *)
Fixpoint bracketed (held : bool) (t : list instr) : bool :=
  match t, held with
  | [], _ => negb held
  | FromHumanSize :: rest, false => bracketed false rest
  | Lock :: rest, false => bracketed true rest
  | Enter _ :: rest, true => bracketed true rest
  | Leave _ :: rest, true => bracketed true rest
  | Unlock :: rest, true => bracketed false rest
  | _, _ => false
  end.

Definition lockedness (m : Mutex) : nat :=
  match m with Locked => 1 | Unlocked => 0 end.

(** Two [Create] requests, as two concurrent [docker volume create]
    commands produce them. *)
Definition twoCreates : Server :=
  serve (NewDriver "512M") [Create "a"; Create "b"].

(** The invariant of a server whose methods share the handler's
    driver: every goroutine is at a well-bracketed point of its method,
    and the goroutines between [Lock] and [Unlock] are as many as the
    mutex says, none or one. *)
Definition sharedLockInv (s : Server) : Prop :=
  Forall (λ g, bracketed (holdsLock g) (todo g) = true) (goroutines s)
  ∧ count holdsLock (goroutines s) = lockedness (mutex (handler s)).

End Plugin.

(** ** The lock as each call sees it *)

(** The invariant of the server as the source declares it, with value
    receivers: every goroutine is at a well-bracketed point of its
    method, and the mutex in its own copy of the driver is locked
    exactly while it is between [Lock] and [Unlock]. *)
Definition ownLockInv (s : Plugin.Server) : Prop :=
  Forall (λ g, Plugin.bracketed (Plugin.holdsLock g) (Plugin.todo g) = true
               ∧ Plugin.mutex (Plugin.recv g)
                 = (if Plugin.holdsLock g then Plugin.Locked
                    else Plugin.Unlocked))
    (Plugin.goroutines s).

(** ** The volume manager, as its callers see it *)

(** Package [manager] is used by the plugin driver and by [xfsvolctl ls]
    but is not among the sources; both callers are verified against
    every implementation of the interface they use. *)
Module manager.

(** [manager.Volume], with the fields the callers read or set. *)
Record Volume := mkVolume {
  Name : string;
  Size : N;
  INode : N;
  Path : string;
}.

(** [M] is the state the manager works on.  [Get] returns
    [(vol, found, err)]: [inr None] stands for [found = false]. *)
Class API (M : Type) := {
  New : string → M → option error * M;
  Create : Volume → M → (error + string) * M;
  List : M → (error + list Volume) * M;
  Get : string → M → (error + option Volume) * M;
  Delete : string → M → option error * M;
  FromHumanSize : string → error + N;
  HumanSize : N → string;
}.

End manager.

(** The request and response types of the volume plugin protocol,
    [github.com/docker/go-plugins-helpers/volume], imported as [v]. *)
Module v.

Record Volume := mkVolume {
  Name : string;
  Mountpoint : string;
}.

(** [v.CreateRequest]; [ReqName] is its field [Name]. *)
Record CreateRequest := mkCreateRequest {
  ReqName : string;
  Options : gmap string string;
}.

End v.

(** ** The methods of the plugin driver *)

(** Each method returns its result, the manager state it leaves, and
    the steps it ran, in the vocabulary of [Plugin.instr].  The requests
    other than [v.CreateRequest] are read for their [Name] only, which
    the methods below take directly. *)
Module DriverOps.

Record DriverConfig := mkDriverConfig {
  HostMountpoint : string;
  DefaultSize : string;
}.

(** The [defaultSize] field of [Driver]; its [manager] field points to
    the manager whose state the methods thread. *)
Record Driver := mkDriver {
  defaultSize : string;
}.

Section WithManager.
Context {M : Type} `{!manager.API M}.

Definition NewDriver (cfg : DriverConfig) (m : M) : (error + Driver) * M :=
  if decide (HostMountpoint cfg = "") then
    (inl (Errorf "HostMountpoint must be specified" []), m)
  else if decide (DefaultSize cfg = "") then
    (inl (Errorf "DefaultSize must be specified" []), m)
  else
    match manager.New (HostMountpoint cfg) m with
    | (Some err, m1) =>
        (inl (Wrapf err "Couldn't initiate fs manager mounting at %s"
                [AStr (HostMountpoint cfg)]),
         m1)
    | (None, m1) => (inr {| defaultSize := DefaultSize cfg |}, m1)
    end.

Definition Create (d : Driver) (req : v.CreateRequest) (m : M)
  : option error * M * list Plugin.instr :=
  let size := match v.Options req !! "size" with
              | Some size => size
              | None => defaultSize d
              end in
  match manager.FromHumanSize size with
  | inl _ =>
      (Some (Errorf "couldn't convert specified size [%s] into bytes"
               [AStr size]),
       m, [Plugin.FromHumanSize])
  | inr sizeInBytes =>
      let steps := [Plugin.FromHumanSize; Plugin.Lock;
                    Plugin.Enter Plugin.MgrCreate;
                    Plugin.Leave Plugin.MgrCreate; Plugin.Unlock] in
      match manager.Create
              {| manager.Name := v.ReqName req;
                 manager.Size := sizeInBytes;
                 manager.INode := 0;
                 manager.Path := "" |} m with
      | (inl err, m1) =>
          (Some (Wrapf err "manager failed to create volume %s"
                   [AStr (v.ReqName req)]),
           m1, steps)
      | (inr absHostPath, m1) => (None, m1, steps)
      end
  end.

Definition List (d : Driver) (m : M)
  : (error + list v.Volume) * M * list Plugin.instr :=
  let steps := [Plugin.Lock; Plugin.Enter Plugin.MgrList;
                Plugin.Leave Plugin.MgrList; Plugin.Unlock] in
  match manager.List m with
  | (inl err, m1) =>
      (inl (Wrapf err "manager failed to list volumes" []), m1, steps)
  | (inr vols, m1) =>
      (inr ((λ vol, {| v.Name := manager.Name vol; v.Mountpoint := "" |})
              <$> vols),
       m1, steps)
  end.

Definition getSteps : list Plugin.instr :=
  [Plugin.Lock; Plugin.Enter Plugin.MgrGet; Plugin.Leave Plugin.MgrGet;
   Plugin.Unlock].

Definition Get (d : Driver) (name : string) (m : M)
  : (error + v.Volume) * M * list Plugin.instr :=
  match manager.Get name m with
  | (inl err, m1) =>
      (inl (Wrapf err "manager failed to get volume named %s" [AStr name]),
       m1, getSteps)
  | (inr None, m1) =>
      (inl (Errorf "volume %s not found" [AStr name]), m1, getSteps)
  | (inr (Some vol), m1) =>
      (inr {| v.Name := name; v.Mountpoint := manager.Path vol |},
       m1, getSteps)
  end.

Definition Remove (d : Driver) (name : string) (m : M)
  : option error * M * list Plugin.instr :=
  let steps := [Plugin.Lock; Plugin.Enter Plugin.MgrDelete;
                Plugin.Leave Plugin.MgrDelete; Plugin.Unlock] in
  match manager.Delete name m with
  | (Some err, m1) =>
      (Some (Wrapf err "manager failed to delete volume named %s"
               [AStr name]),
       m1, steps)
  | (None, m1) => (None, m1, steps)
  end.

(** [Path] returns a [v.PathResponse], whose only field is the
    mountpoint. *)
Definition Path (d : Driver) (name : string) (m : M)
  : (error + string) * M * list Plugin.instr :=
  match manager.Get name m with
  | (inl err, m1) =>
      (inl (Wrapf err "manager failed to retrieve volume named %s"
              [AStr name]),
       m1, getSteps)
  | (inr None, m1) =>
      (inl (Errorf "volume %s not found" [AStr name]), m1, getSteps)
  | (inr (Some vol), m1) => (inr (manager.Path vol), m1, getSteps)
  end.

(** [Mount] returns a [v.MountResponse], whose only field is the
    mountpoint. *)
Definition Mount (d : Driver) (name : string) (m : M)
  : (error + string) * M * list Plugin.instr :=
  match manager.Get name m with
  | (inl err, m1) =>
      (inl (Wrapf err "failed to retrieve volume named %s" [AStr name]),
       m1, getSteps)
  | (inr None, m1) =>
      (inl (Errorf "volume %s not found" [AStr name]), m1, getSteps)
  | (inr (Some vol), m1) => (inr (manager.Path vol), m1, getSteps)
  end.

Definition Unmount (d : Driver) (name : string) (m : M)
  : option error * M * list Plugin.instr :=
  (None, m, [Plugin.Lock; Plugin.Unlock]).

(** The [Scope] of the [v.CapabilitiesResponse]. *)
Definition Capabilities (d : Driver) : string := "global".

(** What a request leaves behind, whichever method serves it: whether
    it failed, the manager state, and the steps run. *)
Inductive call :=
| CallCreate (req : v.CreateRequest)
| CallList
| CallGet (name : string)
| CallRemove (name : string)
| CallPath (name : string)
| CallMount (name : string)
| CallUnmount (name : string)
| CallCapabilities.



End WithManager.


End DriverOps.

(** ** [xfsvolctl ls] *)

Module Ls.

(** What [lsAction] hands to the terminal: the command help, or cells
    written to the [tabwriter], which reach the terminal at [Flush]. *)
Inductive output :=
| ShowCommandHelp (command : string)
| Header                           (* ["NAME\tBLK-QUOTA\tINODE-QUOTA\t"] *)
| Row (name blkQuota : string) (inodeQuota : N)
| Flush.

Inductive exitMessage :=
| MsgString (s : string)
| MsgError (err : error).

(** [cli.NewExitError(message, exitCode)] *)
Record ExitError := NewExitError {
  message : exitMessage;
  exitCode : N;
}.

Section WithManager.
Context {M : Type} `{!manager.API M}.

Definition row (vol : manager.Volume) : output :=
  Row (manager.Name vol) (manager.HumanSize (manager.Size vol))
    (manager.INode vol).

(** [root] is [c.String("root")]. *)
Definition lsAction (root : string) (m : M)
  : option ExitError * M * list output :=
  if decide (root = "") then
    (Some (NewExitError (MsgString "All parameters must be set") 1), m,
     [ShowCommandHelp "ls"])
  else
    match manager.New root m with
    | (Some err, m1) =>
        (Some (NewExitError
                 (MsgError (Wrapf err "Couldn't initiate manager" [])) 1),
         m1, [])
    | (None, m1) =>
        match manager.List m1 with
        | (inl err, m2) =>
            (Some (NewExitError
                     (MsgError (Wrapf err "Couldn't list volumes under root %s"
                                  [AStr root])) 1),
             m2, [])
        | (inr vols, m2) => (None, m2, Header :: (row <$> vols) ++ [Flush])
        end
    end.

Definition isRow (o : output) : bool :=
  match o with Row _ _ _ => true | _ => false end.

End WithManager.

End Ls.

(** A manager over a list of volumes kept in memory, to run the driver
    and [lsAction] on. *)
Module ListManager.

(** Sizes read ["512M"] and ["1G"]; anything else is refused. *)
Definition fromHumanSize (s : string) : error + N :=
  if decide (s = "512M") then inr 536870912%N
  else if decide (s = "1G") then inr 1073741824%N
  else inl (Errno "EINVAL").

Definition humanSize (n : N) : string :=
  if decide (n = 536870912%N) then "512M"
  else if decide (n = 1073741824%N) then "1G"
  else "?".

Definition find (name : string) (vols : list manager.Volume)
  : option manager.Volume :=
  list_find (λ vol, manager.Name vol = name) vols ≫= λ '(_, vol), Some vol.

Definition create (vol : manager.Volume) (vols : list manager.Volume)
  : (error + string) * list manager.Volume :=
  match find (manager.Name vol) vols with
  | Some _ => (inl (Errno "EEXIST"), vols)
  | None =>
      let path := ("/mnt/" +:+ manager.Name vol)%string in
      (inr path,
       vols ++ [manager.mkVolume (manager.Name vol) (manager.Size vol)
                  (manager.INode vol) path])
  end.

Definition delete (name : string) (vols : list manager.Volume)
  : option error * list manager.Volume :=
  match find name vols with
  | Some _ =>
      (None, filter (λ vol, manager.Name vol ≠ name) vols)
  | None => (Some (Errno "ENOENT"), vols)
  end.

End ListManager.

#[global] Instance ListManager_API : manager.API (list manager.Volume) := {|
  manager.New := λ root vols, (None, vols);
  manager.Create := ListManager.create;
  manager.List := λ vols, (inr vols, vols);
  manager.Get := λ name vols, (inr (ListManager.find name vols), vols);
  manager.Delete := ListManager.delete;
  manager.FromHumanSize := ListManager.fromHumanSize;
  manager.HumanSize := ListManager.humanSize;
|}.

(** ** More sample states *)

Module Sample2.

(** A root in which directory [x] cannot be queried for its project
    id, between two directories that can. *)
Definition brokenDisk : Disk :=
  {| listing := {[ "/r" := [ {| Name := "a"; IsDir := true |};
                             {| Name := "f"; IsDir := false |};
                             {| Name := "x"; IsDir := true |};
                             {| Name := "z"; IsDir := true |} ] ]};
     projid := {[ "/r/a" := 7%N; "/r/z" := 9%N ]};
     limits := ∅;
     pquota := true |}.

Definition brokenWorld : World Disk := mkWorld brokenDisk [].

(** [brokenDisk] once the control file exists. *)
Definition brokenDiskDev : Disk :=
  DiskModel.set_listing
    {[ "/r" := [ {| Name := "a"; IsDir := true |};
                 {| Name := "f"; IsDir := false |};
                 {| Name := "x"; IsDir := true |};
                 {| Name := "z"; IsDir := true |};
                 {| Name := "__control-device"; IsDir := false |} ] ]}
    brokenDisk.

(** The sample disk once the control file exists. *)
Definition diskDev (aId : N) (enabled : bool) : Disk :=
  DiskModel.set_listing
    {[ "/r" := [ {| Name := "a"; IsDir := true |};
                 {| Name := "b"; IsDir := true |};
                 {| Name := "c"; IsDir := true |};
                 {| Name := "f"; IsDir := false |};
                 {| Name := "z"; IsDir := true |};
                 {| Name := "__control-device"; IsDir := false |} ] ]}
    (Sample.disk aId enabled).

(** The sample disk with limits recorded for the project id of [a]. *)
Definition worldWithLimits : World Disk :=
  mkWorld
    (DiskModel.set_limits {[ ("/r/__control-device", 7%N) := Sample.quota10M ]}
       (Sample.disk 7 true))
    [].

End Sample2.

(** ** Further notions about the controller *)

(** The calls the scan issues over a listing: one [GetProjectId] per
    directory, in listing order. *)
Definition scanCalls {K : Type} `{!Kernel K} (root : string)
    (files : list FileInfo) : list syscall :=
  (λ file, CallGetProjectId (k_Join root (Name file)))
    <$> filter (λ file, IsDir file = true) files.

(** Every cached id is a real project id, not above the counter. *)
Definition idsInRange (c : Control) : Prop :=
  ∀ p id, projectIdCache c !! p = Some id →
          (0 < id)%N ∧ (id ≤ lastProjectId c)%N.

(** No two cached paths share an id. *)
Definition idsDistinct (c : Control) : Prop :=
  ∀ p1 p2 id, projectIdCache c !! p1 = Some id →
              projectIdCache c !! p2 = Some id → p1 = p2.

(** Modelled from the spec: [SetProjectId], [SetProjectQuota] and
    [GetProjectQuota] are not part of the sources at hand.  A project
    quota is kept per device and project id: binding a directory to an
    id does not touch the limits, and a quota-set call, whatever its
    outcome, leaves the limits of every other id as they were. *)
Class QuotaIsolation (K : Type) `{!Kernel K} : Prop := {
  bind_keeps_limits :
    ∀ path projectId k err k' dev id,
      k_SetProjectId path projectId k = (err, k') →
      k_GetProjectQuota dev id k' = k_GetProjectQuota dev id k;
  set_keeps_other_limits :
    ∀ dev projectId quota k err k' id,
      k_SetProjectQuota dev projectId quota k = (err, k') →
      id ≠ projectId →
      k_GetProjectQuota dev id k' = k_GetProjectQuota dev id k;
}.

(** ** Properties of the controller, for every kernel *)

Section ControllerSpec.
Context {K : Type} `{!Kernel K}.
Implicit Types (c : Control) (w : World K) (q quota : Quota).
Implicit Types (path targetPath dev : string) (id projectId : N).

(** *** The allocation block *)

Lemma bindProjectId_cached path id c w :
  projectIdCache c !! path = Some id →
  bindProjectId path c w = (inr id, c, w).
Proof. intros Hc. unfold bindProjectId. by rewrite Hc. Qed.

Lemma bindProjectId_fresh path c w err k' :
  projectIdCache c !! path = None →
  k_SetProjectId path (uint32_add (lastProjectId c) 1) (kernel w)
    = (err, k') →
  bindProjectId path c w =
    let id := uint32_add (lastProjectId c) 1 in
    let w1 := record (CallSetProjectId path id) k' w in
    match err with
    | Some e => (inl (BindError path e), c, w1)
    | None =>
        (inr id,
         mkControl (backingFsBlockDev c)
           (<[path := id]> (projectIdCache c)) id,
         w1)
    end.
Proof.
  intros Hc Hk. unfold bindProjectId, SetProjectId.
  rewrite Hc, Hk. by destruct err.
Qed.

Lemma SetQuota_cached path id q c w :
  projectIdCache c !! path = Some id →
  SetQuota path q c w =
    let (err, k') :=
      k_SetProjectQuota (backingFsBlockDev c) id q (kernel w) in
    (QuotaSetError q path <$> err, c,
     record (CallSetProjectQuota (backingFsBlockDev c) id q) k' w).
Proof.
  intros Hc. unfold SetQuota, SetProjectQuota.
  rewrite (bindProjectId_cached _ _ _ _ Hc).
  by destruct (k_SetProjectQuota _ _ _ _) as [[e|] k'].
Qed.

(** Whatever happens, [SetQuota] never touches the device path. *)
Lemma SetQuota_backingFsBlockDev path q c w :
  backingFsBlockDev (snd (fst (SetQuota path q c w))) = backingFsBlockDev c.
Proof.
  unfold SetQuota, bindProjectId, SetProjectId, SetProjectQuota.
  destruct (projectIdCache c !! path) as [id|].
  - by destruct (k_SetProjectQuota _ _ _ _) as [[e|] k'].
  - destruct (k_SetProjectId _ _ _) as [[e|] k1]; [done|].
    by destruct (k_SetProjectQuota _ _ _ _) as [[e|] k'].
Qed.

(** A successful [SetQuota] leaves the path bound, and its last call
    to the kernel is the successful quota-set for that binding. *)
Lemma SetQuota_success path q c w c1 w1 :
  SetQuota path q c w = (None, c1, w1) →
  ∃ id k0 tr,
    projectIdCache c1 !! path = Some id ∧
    backingFsBlockDev c1 = backingFsBlockDev c ∧
    k_SetProjectQuota (backingFsBlockDev c) id q k0 = (None, kernel w1) ∧
    trace w1 = tr ++ [CallSetProjectQuota (backingFsBlockDev c) id q].
Proof.
  unfold SetQuota, bindProjectId, SetProjectId, SetProjectQuota.
  destruct (projectIdCache c !! path) as [id|] eqn:Hc.
  - destruct (k_SetProjectQuota _ _ _ _) as [[e|] k'] eqn:Hq; [done|].
    intros [= <- <-]. exists id, (kernel w), (trace w). by rewrite Hc.
  - destruct (k_SetProjectId _ _ _) as [[e|] k1]; [done|]. cbn.
    destruct (k_SetProjectQuota _ _ _ _) as [[e|] k'] eqn:Hq; [done|].
    intros [= <- <-].
    exists (uint32_add (lastProjectId c) 1), k1,
      (trace w ++ [CallSetProjectId path (uint32_add (lastProjectId c) 1)]).
    cbn. by rewrite lookup_insert_eq.
Qed.

(** *** Reading a quota *)

Lemma GetQuota_uncached path c w :
  projectIdCache c !! path = None →
  GetQuota path c w = (inl (NotFoundError path), c, w).
Proof. intros Hc. unfold GetQuota. by rewrite Hc. Qed.

Lemma GetQuota_cached path id c w :
  projectIdCache c !! path = Some id →
  GetQuota path c w =
    (match k_GetProjectQuota (backingFsBlockDev c) id (kernel w) with
     | inr limits => inr limits
     | inl e => inl (QuotaGetError e)
     end,
     c,
     mkWorld (kernel w)
       (trace w ++ [CallGetProjectQuota (backingFsBlockDev c) id])).
Proof.
  intros Hc. unfold GetQuota, GetProjectQuota, record. rewrite Hc.
  by destruct (k_GetProjectQuota _ _ _).
Qed.

Lemma GetQuota_Control path c w : snd (fst (GetQuota path c w)) = c.
Proof.
  destruct (projectIdCache c !! path) as [id|] eqn:Hc.
  - by rewrite (GetQuota_cached _ _ _ _ Hc).
  - by rewrite (GetQuota_uncached _ _ _ Hc).
Qed.

(** What [GetQuota] returns on a cached path right after a successful
    quota-set call for its id, on a kernel that is a quota store. *)
Lemma GetQuota_reads_back `{!QuotaStore K} path id q c w k0 :
  projectIdCache c !! path = Some id →
  k_SetProjectQuota (backingFsBlockDev c) id q k0 = (None, kernel w) →
  fst (fst (GetQuota path c w)) = inr q
  ∧ ∃ w2, GetQuota path c w = (inr q, c, w2).
Proof.
  intros Hc Hset.
  rewrite (GetQuota_cached _ _ _ _ Hc), (get_after_set _ _ _ _ _ Hset).
  split; [done|by eexists].
Qed.

(** C4. [GetQuota] fails with the not-found error exactly when the
    path has no cache entry, and then issues no call at all; when the
    path is cached it issues exactly one quota-get call, on the backing
    device and for the cached project id, and returns the reported
    limits, or the call's failure wrapped by [GetQuota]. *)
Theorem GetQuota_not_found_iff_uncached path c w :
  (fst (fst (GetQuota path c w)) = inl (NotFoundError path)
     ↔ projectIdCache c !! path = None)
  ∧ (projectIdCache c !! path = None →
       GetQuota path c w = (inl (NotFoundError path), c, w))
  ∧ (∀ id, projectIdCache c !! path = Some id →
       GetQuota path c w =
         (match k_GetProjectQuota (backingFsBlockDev c) id (kernel w) with
          | inr limits => inr limits
          | inl e => inl (QuotaGetError e)
          end,
          c,
          mkWorld (kernel w)
            (trace w ++ [CallGetProjectQuota (backingFsBlockDev c) id]))).
Proof.
  split_and!.
  - destruct (projectIdCache c !! path) as [id|] eqn:Hc.
    + rewrite (GetQuota_cached _ _ _ _ Hc). cbn. split; [|done].
      by destruct (k_GetProjectQuota _ _ _).
    + by rewrite (GetQuota_uncached _ _ _ Hc).
  - apply GetQuota_uncached.
  - intros id. apply GetQuota_cached.
Qed.

(** C9. Neither [GetQuota] nor [GetBackingFsBlockDev] changes any
    field of the controller; of the methods of [*Control], a call that
    leaves the controller different from what it was is a [SetQuota]. *)
Theorem readers_leave_Control_unchanged :
  (∀ path c w, snd (fst (GetQuota path c w)) = c)
  ∧ (∀ c, GetBackingFsBlockDev c = (backingFsBlockDev c, c))
  ∧ (∀ m c w, fst (invoke m c w) ≠ c →
       ∃ path q, m = MSetQuota path q).
Proof.
  split_and!; [apply GetQuota_Control|done|].
  intros [|path|path q] c w Hne.
  - by destruct Hne.
  - destruct Hne. cbn. pose proof (GetQuota_Control path c w) as Hget.
    by destruct (GetQuota path c w) as [[r c1] w1].
  - by exists path, q.
Qed.

(** *** Writing a quota *)

(** C8. On a path without cache entry, a failing attribute-bind call
    makes [SetQuota] return that failure, wrapped, after this single
    call: the controller is the one it was, so the path is still
    unbound and [lastProjectId] has not moved. *)
Theorem SetQuota_bind_failure path q c w e k' :
  projectIdCache c !! path = None →
  k_SetProjectId path (uint32_add (lastProjectId c) 1) (kernel w)
    = (Some e, k') →
  ∃ c1 w1,
    SetQuota path q c w = (Some (BindError path e), c1, w1)
    ∧ c1 = c
    ∧ projectIdCache c1 !! path = None
    ∧ lastProjectId c1 = lastProjectId c
    ∧ w1 = mkWorld k'
             (trace w ++
                [CallSetProjectId path (uint32_add (lastProjectId c) 1)]).
Proof.
  intros Hc Hk. exists c, (record (CallSetProjectId path
                                     (uint32_add (lastProjectId c) 1)) k' w).
  unfold SetQuota. rewrite (bindProjectId_fresh _ _ _ _ _ Hc Hk). cbn.
  by split_and!.
Qed.

(** C7. On a path without cache entry, when the attribute-bind call
    succeeds and the quota-set call then fails, [SetQuota] returns the
    wrapped failure and keeps what it did before: the path is cached
    under the new id and [lastProjectId] is that id.  The only
    quota-set call issued is the one that failed. *)
Theorem SetQuota_quota_failure_keeps_binding path q c w e k1 k2 :
  let id := uint32_add (lastProjectId c) 1 in
  let dev := backingFsBlockDev c in
  projectIdCache c !! path = None →
  k_SetProjectId path id (kernel w) = (None, k1) →
  k_SetProjectQuota dev id q k1 = (Some e, k2) →
  ∃ c1 w1,
    SetQuota path q c w = (Some (QuotaSetError q path e), c1, w1)
    ∧ projectIdCache c1 = <[path := id]> (projectIdCache c)
    ∧ projectIdCache c1 !! path = Some id
    ∧ lastProjectId c1 = id
    ∧ backingFsBlockDev c1 = dev
    ∧ w1 = mkWorld k2
             (trace w ++
                [CallSetProjectId path id; CallSetProjectQuota dev id q]).
Proof.
  intros id dev Hc Hk1 Hk2. unfold SetQuota.
  rewrite (bindProjectId_fresh _ _ _ _ _ Hc Hk1). cbn.
  unfold SetProjectQuota. cbn. fold id dev. rewrite Hk2.
  eexists _, _. split; [reflexivity|]. unfold record. cbn.
  rewrite lookup_insert_eq, <- (assoc_L (++)).
  by split_and!.
Qed.

Section WithQuotaStore.
Context `{!QuotaStore K}.

(** C2. After a successful [SetQuota path q], [GetQuota path]
    succeeds and returns [q], whenever a quota-get call reads what
    the last successful quota-set call for the same device and
    project id wrote. *)
Theorem SetQuota_then_GetQuota path q c w c1 w1 :
  SetQuota path q c w = (None, c1, w1) →
  ∃ w2, GetQuota path c1 w1 = (inr q, c1, w2).
Proof.
  intros (id & k0 & tr & Hc1 & Hdev & Hset & _)%SetQuota_success.
  rewrite <- Hdev in Hset.
  by destruct (GetQuota_reads_back _ _ _ _ _ _ Hc1 Hset) as [_ Hget].
Qed.

(** C3. On a path that is already cached, [SetQuota] leaves the
    whole controller as it was (no id is allocated, no cache entry
    and not [lastProjectId] changes) and issues one call: the
    quota-set for the cached id with the requested limits.  A second
    [SetQuota] on the path therefore uses the same id, and when it
    succeeds its limits are the ones [GetQuota] reports. *)
Theorem SetQuota_cached_path_only_sets_limits path id q1 q2 c w :
  projectIdCache c !! path = Some id →
  let dev := backingFsBlockDev c in
  ∃ e1 e2 w1 w2,
    SetQuota path q1 c w = (e1, c, w1)
    ∧ (e1, kernel w1) =
        (let (e, k) := k_SetProjectQuota dev id q1 (kernel w) in
         (QuotaSetError q1 path <$> e, k))
    ∧ trace w1 = trace w ++ [CallSetProjectQuota dev id q1]
    ∧ SetQuota path q2 c w1 = (e2, c, w2)
    ∧ trace w2 = trace w1 ++ [CallSetProjectQuota dev id q2]
    ∧ (e2 = None → fst (fst (GetQuota path c w2)) = inr q2).
Proof.
  intros Hc dev.
  destruct (SetQuota path q1 c w) as [[e1 c1] w1] eqn:H1.
  destruct (SetQuota path q2 c w1) as [[e2 c2] w2] eqn:H2.
  pose proof H1 as H1'. pose proof H2 as H2'.
  rewrite (SetQuota_cached _ _ _ _ _ Hc) in H1'.
  rewrite (SetQuota_cached _ _ _ _ _ Hc) in H2'. fold dev in H1', H2'.
  destruct (k_SetProjectQuota dev id q1 (kernel w)) as [r1 k1].
  destruct (k_SetProjectQuota dev id q2 (kernel w1)) as [r2 k2].
  injection H1' as <- <- <-. injection H2' as <- <- <-.
  exists (QuotaSetError q1 path <$> r1), (QuotaSetError q2 path <$> r2).
  eexists _, _. split_and!; [reflexivity|done|done|exact H2|done|].
  intros He2. destruct r2; [done|].
  apply SetQuota_success in H2 as (id2 & k0 & _ & Hc2 & _ & Hset & _).
  by destruct (GetQuota_reads_back _ _ _ _ _ _ Hc2 Hset) as [Hget _].
Qed.

End WithQuotaStore.

(** *** The initial scan *)

(** The scan only reads: the kernel is the one it started from. *)
Lemma scanFiles_kernel root files :
  ∀ mapping w m' e w',
    scanFiles root files mapping w = (m', e, w') → kernel w' = kernel w.
Proof.
  induction files as [|file rest IH]; intros mapping w m' e w'; cbn.
  - by intros [= _ _ <-].
  - destruct (IsDir file); cbn; [|by apply IH].
    destruct (k_GetProjectId _ _) as [err|projectId].
    + by intros [= _ _ <-].
    + destruct (0 <? projectId)%N; intros Hs; by apply IH in Hs.
Qed.

Lemma scanFiles_success root files :
  ∀ mapping w m' w',
    (∀ p id, mapping !! p = Some id → k_GetProjectId p (kernel w) = inr id) →
    scanFiles root files mapping w = (m', None, w') →
    ∀ p id, m' !! p = Some id ↔
            scanned (kernel w) root files p id ∨ mapping !! p = Some id.
Proof.
  unfold scanned.
  induction files as [|file rest IH]; intros mapping w m' w' Hm; cbn.
  - intros [= <- <-] p id. split; [by right|].
    intros [(f & Hf & _)|?]; [|done]. by apply elem_of_nil in Hf.
  - destruct (IsDir file) eqn:Hdir; cbn.
    + destruct (k_GetProjectId _ _) as [err|projectId] eqn:Hid; [done|].
      destruct (0 <? projectId)%N eqn:Hpos.
      * intros Hs p id. apply N.ltb_lt in Hpos.
        assert (Hm1 : ∀ p' id',
                   <[k_Join root (Name file) := projectId]> mapping !! p'
                     = Some id' →
                   k_GetProjectId p' (kernel w) = inr id').
        { intros p' id'.
          destruct (decide (p' = k_Join root (Name file))) as [->|Hne].
          - rewrite lookup_insert_eq. congruence.
          - rewrite lookup_insert_ne by done. apply Hm. }
        rewrite (IH _ (record _ _ w) _ _ Hm1 Hs p id); cbn.
        destruct (decide (p = k_Join root (Name file))) as [->|Hne].
        -- rewrite lookup_insert_eq. split.
           ++ intros [(f & Hf & Hd & Hp & Hg & Hz)|[= <-]].
              ** left. exists f. rewrite elem_of_cons. eauto 10.
              ** left. exists file. rewrite elem_of_cons.
                 split_and!; eauto. lia.
           ++ intros [(f & Hf & Hd & Hp & Hg & Hz)|Hold].
              ** right. congruence.
              ** right. apply Hm in Hold. congruence.
        -- rewrite lookup_insert_ne by done. split.
           ++ intros [(f & Hf & Hd & Hp & Hg & Hz)|Hold]; [|by right].
              left. exists f. rewrite elem_of_cons. eauto 10.
           ++ intros [(f & Hf & Hd & Hp & Hg & Hz)|Hold]; [|by right].
              apply elem_of_cons in Hf as [->|Hf]; [done|].
              left. eauto 10.
      * intros Hs p id. apply N.ltb_ge in Hpos.
        rewrite (IH _ (record _ _ w) _ _ Hm Hs p id); cbn. split.
        -- intros [(f & Hf & Hd & Hp & Hg & Hz)|Hold]; [|by right].
           left. exists f. rewrite elem_of_cons. eauto 10.
        -- intros [(f & Hf & Hd & Hp & Hg & Hz)|Hold]; [|by right].
           apply elem_of_cons in Hf as [->|Hf].
           ++ subst p. rewrite Hid in Hg. injection Hg as <-. lia.
           ++ left. eauto 10.
    + intros Hs p id. rewrite (IH _ _ _ _ Hm Hs). split.
      * intros [(f & Hf & Hd & Hp & Hg & Hz)|Hold]; [|by right].
        left. exists f. rewrite elem_of_cons. eauto 10.
      * intros [(f & Hf & Hd & Hp & Hg & Hz)|Hold]; [|by right].
        apply elem_of_cons in Hf as [->|Hf]; [congruence|].
        left. eauto 10.
Qed.

(** *** The high-water mark *)

Lemma raiseLastProjectId_is_max (cache : gmap string N) (start : N) :
  is_max_of start cache (raiseLastProjectId cache start).
Proof.
  unfold raiseLastProjectId.
  apply (map_fold_weak_ind (λ r m, is_max_of start m r)).
  - split_and!; [lia| |by left]. intros p id. by rewrite lookup_empty.
  - intros p id m r Hfresh (Hge & Hall & Hwit).
    destruct (r <? id)%N eqn:Hlt;
      [apply N.ltb_lt in Hlt|apply N.ltb_ge in Hlt].
    + split_and!; [lia| |].
      * intros p' id'. rewrite lookup_insert.
        case_decide; [intros [= <-]; lia|].
        intros Hp'. apply Hall in Hp'. lia.
      * right. exists p. by rewrite lookup_insert_eq.
    + split_and!; [lia| |].
      * intros p' id'. rewrite lookup_insert.
        case_decide; [intros [= <-]; lia|]. apply Hall.
      * destruct Hwit as [->|[p' Hp']]; [by left|]. right. exists p'.
        rewrite lookup_insert_ne; [done|]. intros ->. congruence.
Qed.

(** What a successful [NewControl] went through. *)
Lemma NewControl_success cfg w c w' :
  NewControl cfg w = (c, None, w') →
  BasePath cfg ≠ ""
  ∧ backingFsBlockDev c = k_Join (BasePath cfg) blockDeviceName
  ∧ k_MakeBackingFsDev (BasePath cfg) blockDeviceName (kernel w)
      = (None, kernel w')
  ∧ lastProjectId c =
      raiseLastProjectId (projectIdCache c)
        (default 0%N (StartingProjectId cfg))
  ∧ ∃ files w1,
      k_ReadDir (BasePath cfg) (kernel w') = inr files
      ∧ kernel w1 = kernel w'
      ∧ scanFiles (BasePath cfg) files ∅ w1 = (projectIdCache c, None, w').
Proof.
  unfold NewControl, MakeBackingFsDev, GeneratePathToProjectIdMap, ReadDir.
  case_decide as Hbase; [done|].
  destruct (k_MakeBackingFsDev _ _ _) as [[e|] k1] eqn:Hmk; [done|]. cbn.
  destruct (k_ReadDir _ _) as [e|files] eqn:Hrd; [done|].
  match goal with
  | |- context [scanFiles ?r ?f ?m ?x] =>
      destruct (scanFiles r f m x) as [[mapping [e|]] w2] eqn:Hscan
  end; [done|].
  intros [= <- <-].
  pose proof (scanFiles_kernel _ _ _ _ _ _ _ Hscan) as Hk. cbn in Hk.
  rewrite Hk. split_and!; [done|done|done| |].
  - cbn. by destruct (StartingProjectId cfg).
  - eexists files, _. split_and!; [exact Hrd| |exact Hscan]. done.
Qed.

(** C5. After a successful [NewControl] the cache holds an entry
    [p := id] exactly when [p] is the absolute path of an immediate
    child of the base path that is a directory and [id] is its non-zero
    on-disk project id.  A directory whose on-disk id is 0 has no
    entry, and neither has a child that is not a directory, given that
    distinct children have distinct absolute paths. *)
Theorem NewControl_cache_is_scan cfg w c w' :
  NewControl cfg w = (c, None, w') →
  ∃ files,
    k_ReadDir (BasePath cfg) (kernel w') = inr files
    ∧ (∀ p id, projectIdCache c !! p = Some id ↔
               ∃ file, file ∈ files ∧ IsDir file = true
                       ∧ p = k_Join (BasePath cfg) (Name file)
                       ∧ k_GetProjectId p (kernel w') = inr id ∧ id ≠ 0%N)
    ∧ (∀ file, file ∈ files → IsDir file = true →
         k_GetProjectId (k_Join (BasePath cfg) (Name file)) (kernel w')
           = inr 0%N →
         projectIdCache c !! k_Join (BasePath cfg) (Name file) = None)
    ∧ ((∀ f g, f ∈ files → g ∈ files →
          k_Join (BasePath cfg) (Name f) = k_Join (BasePath cfg) (Name g) →
          f = g) →
       ∀ file, file ∈ files → IsDir file = false →
         projectIdCache c !! k_Join (BasePath cfg) (Name file) = None).
Proof.
  intros (_ & _ & _ & _ & files & w1 & Hrd & Hk & Hscan)%NewControl_success.
  exists files. split; [done|].
  assert (Hiff : ∀ p id, projectIdCache c !! p = Some id ↔
                         scanned (kernel w') (BasePath cfg) files p id).
  { intros p id. rewrite <- Hk.
    assert (Hempty : ∀ p id, (∅ : gmap string N) !! p = Some id →
                             k_GetProjectId p (kernel w1) = inr id)
      by (intros ??; by rewrite lookup_empty).
    rewrite (scanFiles_success _ _ _ _ _ _ Hempty Hscan p id).
    rewrite lookup_empty. split; [intros [?|?]; done|by left]. }
  split_and!; [exact Hiff| |].
  - intros file Hin Hdir Hzero.
    apply eq_None_not_Some. intros [id (f & _ & _ & _ & Hg & Hz)%Hiff].
    congruence.
  - intros Hinj file Hin Hdir.
    apply eq_None_not_Some. intros [id (f & Hf & Hd & Hp & _)%Hiff].
    apply Hinj in Hp; [|done..]. congruence.
Qed.

(** For every input, after a successful [NewControl] the counter
    [lastProjectId] is the maximum of the configured floor (0 when
    there is none) and the cached ids. *)
Lemma NewControl_lastProjectId_is_max cfg w c w' :
  NewControl cfg w = (c, None, w') →
  is_max_of (default 0%N (StartingProjectId cfg)) (projectIdCache c)
    (lastProjectId c).
Proof.
  intros (_ & _ & _ & -> & _)%NewControl_success.
  apply raiseLastProjectId_is_max.
Qed.

(** *** Allocation while the counter does not wrap *)

(** One [SetQuota] either leaves the controller alone or binds the
    path to [lastProjectId + 1] (modulo [2^32]) and moves the counter
    there. *)
Lemma SetQuota_Control path q c w :
  let c1 := snd (fst (SetQuota path q c w)) in
  (c1 = c ∧ allocated path c c1 = [])
  ∨ (projectIdCache c !! path = None
     ∧ c1 = mkControl (backingFsBlockDev c)
              (<[path := uint32_add (lastProjectId c) 1]> (projectIdCache c))
              (uint32_add (lastProjectId c) 1)
     ∧ allocated path c c1 = [(path, uint32_add (lastProjectId c) 1)]).
Proof.
  unfold SetQuota, bindProjectId, SetProjectId, SetProjectQuota, allocated.
  destruct (projectIdCache c !! path) as [id|] eqn:Hc.
  - left. by destruct (k_SetProjectQuota _ _ _ _) as [[e|] k'].
  - destruct (k_SetProjectId _ _ _) as [[e|] k1]; cbn.
    + left. by rewrite Hc.
    + right. destruct (k_SetProjectQuota _ _ _ _) as [[e|] k']; cbn;
        by rewrite lookup_insert_eq.
Qed.

Lemma uint32_add_1_no_wrap (n : N) :
  (n < uint32_max)%N → uint32_add n 1 = (n + 1)%N.
Proof.
  unfold uint32_add, uint32_max, uint32_modulus. intros Hn.
  apply N.mod_small. lia.
Qed.

(** X12. As long as the counter stays below [2^32 - 1], the ids bound over
    a whole run, removals of cache entries included, are strictly
    increasing and above the initial [lastProjectId]: no id is issued
    twice. *)
Lemma lifetime_ids_increase events :
  ∀ c w ids c' w',
    (lastProjectId c + N.of_nat (length events) ≤ uint32_max)%N →
    lifetime events c w = (ids, c', w') →
    (lastProjectId c ≤ lastProjectId c')%N
    ∧ (lastProjectId c' ≤ lastProjectId c + N.of_nat (length events))%N
    ∧ StronglySorted N.lt ids.*2
    ∧ Forall (λ id, lastProjectId c < id ≤ lastProjectId c')%N ids.*2.
Proof.
  induction events as [|ev rest IH]; intros c w ids c' w' Hbound; cbn.
  - intros [= <- <- <-]. cbn. split_and!; try lia; constructor.
  - cbn in Hbound.
    assert (Hstep : ∃ new c1 w1,
               match ev with
               | EvSetQuota targetPath quota =>
                   let '(_, c1, w1) := SetQuota targetPath quota c w in
                   (allocated targetPath c c1, c1, w1)
               | EvGetQuota targetPath =>
                   let '(_, c1, w1) := GetQuota targetPath c w in
                   ([], c1, w1)
               | EvForget targetPath =>
                   ([], set_projectIdCache
                          (delete targetPath (projectIdCache c)) c, w)
               end = (new, c1, w1)
               ∧ ((new = [] ∧ lastProjectId c1 = lastProjectId c)
                  ∨ (∃ p, new = [(p, lastProjectId c1)]
                          ∧ lastProjectId c1 = (lastProjectId c + 1)%N))).
    { destruct ev as [p q|p|p].
      - pose proof (SetQuota_Control p q c w) as Hc.
        destruct (SetQuota p q c w) as [[e c1] w1]. cbn in Hc.
        eexists _, _, _. split; [done|].
        destruct Hc as [[-> ->]|(_ & -> & ->)]; [by left|right].
        exists p. cbn. rewrite uint32_add_1_no_wrap by lia. done.
      - pose proof (GetQuota_Control p c w) as Hget.
        destruct (GetQuota p c w) as [[r c1] w1]. cbn in Hget. subst c1.
        eexists _, _, _. split; [done|]. by left.
      - eexists _, _, _. split; [done|]. by left. }
    destruct Hstep as (new & c1 & w1 & -> & Hnew).
    destruct (lifetime rest c1 w1) as [[later c2] w2] eqn:Hrest.
    intros [= <- <- <-].
    apply IH in Hrest as (Hle & Hub & Hsorted & Hall);
      [|destruct Hnew as [[_ ->]|(p & _ & ->)]; lia].
    destruct Hnew as [[-> Hl]|(p & -> & Hl)]; cbn.
    + rewrite Hl in *. split_and!; [lia|lia|done|done].
    + rewrite Hl in *. split_and!; [lia|lia| |].
      * constructor; [done|].
        eapply Forall_impl; [exact Hall|]. cbn. intros id ?. lia.
      * constructor; [lia|].
        eapply Forall_impl; [exact Hall|]. cbn. intros id ?. lia.
Qed.

(** X11. N successful [SetQuota] calls on distinct paths that are not
    cached receive [lastProjectId + 1], ..., [lastProjectId + N] in
    call order, as long as the counter stays below [2^32]. *)
Lemma SetQuotaAll_fresh_ids reqs :
  ∀ c w c' w',
    NoDup reqs.*1 →
    (∀ p, p ∈ reqs.*1 → projectIdCache c !! p = None) →
    (lastProjectId c + N.of_nat (length reqs) ≤ uint32_max)%N →
    SetQuotaAll reqs c w = Some (c', w') →
    lastProjectId c' = (lastProjectId c + N.of_nat (length reqs))%N
    ∧ (∀ p id, projectIdCache c !! p = Some id →
               projectIdCache c' !! p = Some id)
    ∧ ∀ i p q, reqs !! i = Some (p, q) →
        projectIdCache c' !! p = Some (lastProjectId c + N.of_nat (S i))%N.
Proof.
  induction reqs as [|[p0 q0] rest IH]; intros c w c' w' Hnd Hfresh Hbound.
  - cbn. intros [= <- <-]. split_and!; [lia|done|]. intros i p q.
    by rewrite lookup_nil.
  - cbn in Hnd, Hbound |- *. apply NoDup_cons in Hnd as [Hnotin Hnd].
    pose proof (SetQuota_Control p0 q0 c w) as Hc.
    destruct (SetQuota p0 q0 c w) as [[[e|] c1] w1] eqn:Hset; [done|].
    cbn in Hc.
    assert (Hp0 : projectIdCache c !! p0 = None)
      by (apply Hfresh; cbn; apply elem_of_cons; by left).
    apply SetQuota_success in Hset as (id0 & _ & _ & Hbound0 & _).
    destruct Hc as [[-> _]|(_ & -> & _)]; [congruence|].
    rewrite uint32_add_1_no_wrap by lia.
    intros Hrest. apply IH in Hrest as (Hlast & Hkeep & Hids); cbn in *.
    + split_and!; [lia| |].
      * intros p id Hp. apply Hkeep. rewrite lookup_insert_ne; [done|].
        intros ->. congruence.
      * intros [|i] p q; cbn.
        -- intros [= <- <-].
           apply (Hkeep p0 (lastProjectId c + 1)%N), lookup_insert_eq.
        -- intros Hi. rewrite (Hids _ _ _ Hi). f_equal. lia.
    + done.
    + intros p Hp. rewrite lookup_insert_ne.
      * apply Hfresh. apply elem_of_cons. by right.
      * intros ->. done.
    + lia.
Qed.

(** Without the bound the same calls receive these numbers modulo
    [2^32]. *)
Lemma SetQuotaAll_ids_wrap reqs :
  ∀ c w c' w',
    NoDup reqs.*1 →
    (∀ p, p ∈ reqs.*1 → projectIdCache c !! p = None) →
    SetQuotaAll reqs c w = Some (c', w') →
    (∀ p id, projectIdCache c !! p = Some id →
             projectIdCache c' !! p = Some id)
    ∧ ∀ i p q, reqs !! i = Some (p, q) →
        projectIdCache c' !! p
        = Some ((lastProjectId c + N.of_nat (S i)) mod uint32_modulus)%N.
Proof.
  induction reqs as [|[p0 q0] rest IH]; intros c w c' w' Hnd Hfresh.
  - cbn. intros [= <- <-]. split; [done|]. intros i p q.
    by rewrite lookup_nil.
  - cbn in Hnd |- *. apply NoDup_cons in Hnd as [Hnotin Hnd].
    pose proof (SetQuota_Control p0 q0 c w) as Hc.
    destruct (SetQuota p0 q0 c w) as [[[e|] c1] w1] eqn:Hset; [done|].
    cbn in Hc.
    assert (Hp0 : projectIdCache c !! p0 = None)
      by (apply Hfresh; cbn; apply elem_of_cons; by left).
    apply SetQuota_success in Hset as (id0 & _ & _ & Hbound0 & _).
    destruct Hc as [[-> _]|(_ & -> & _)]; [congruence|].
    intros Hrest. apply IH in Hrest as (Hkeep & Hids); cbn in *.
    + split.
      * intros p id Hp. apply Hkeep. rewrite lookup_insert_ne; [done|].
        intros ->. congruence.
      * intros [|i] p q; cbn.
        -- intros [= <- <-].
           apply (Hkeep p0 (uint32_add (lastProjectId c) 1)), lookup_insert_eq.
        -- intros Hi. rewrite (Hids _ _ _ Hi). f_equal.
           unfold uint32_add.
           rewrite N.Div0.add_mod_idemp_l. f_equal. lia.
    + done.
    + intros p Hp. rewrite lookup_insert_ne.
      * apply Hfresh. apply elem_of_cons. by right.
      * intros ->. done.
Qed.

(** Hence two calls [2^32] apart in such a sequence are given the same
    id. *)
Lemma SetQuotaAll_ids_collide reqs c w c' w' i j pi qi pj qj :
  NoDup reqs.*1 →
  (∀ p, p ∈ reqs.*1 → projectIdCache c !! p = None) →
  SetQuotaAll reqs c w = Some (c', w') →
  reqs !! i = Some (pi, qi) →
  reqs !! j = Some (pj, qj) →
  N.of_nat j = (N.of_nat i + uint32_modulus)%N →
  pi ≠ pj ∧ projectIdCache c' !! pi = projectIdCache c' !! pj.
Proof.
  intros Hnd Hfresh Hrun Hi Hj Hij.
  destruct (SetQuotaAll_ids_wrap _ _ _ _ _ Hnd Hfresh Hrun) as [_ Hids].
  split.
  - intros ->.
    assert (Hi' : reqs.*1 !! i = Some pj) by by rewrite list_lookup_fmap, Hi.
    assert (Hj' : reqs.*1 !! j = Some pj) by by rewrite list_lookup_fmap, Hj.
    pose proof (NoDup_lookup _ _ _ _ Hnd Hi' Hj') as ->.
    unfold uint32_modulus in Hij. lia.
  - rewrite (Hids _ _ _ Hi), (Hids _ _ _ Hj). f_equal.
    replace (lastProjectId c + N.of_nat (S j))%N
      with (lastProjectId c + N.of_nat (S i) + 1 * uint32_modulus)%N by lia.
    by rewrite N.Div0.mod_add.
Qed.

(** Where the counter has room, the next fresh id is above the
    configured floor and above every cached id. *)
Lemma NewControl_next_id_above cfg w c w' :
  NewControl cfg w = (c, None, w') →
  (lastProjectId c < uint32_max)%N →
  let next := uint32_add (lastProjectId c) 1 in
  (default 0%N (StartingProjectId cfg) < next)%N
  ∧ ∀ p id, projectIdCache c !! p = Some id → (id < next)%N.
Proof.
  intros (Hge & Hall & _)%NewControl_lastProjectId_is_max Hroom next.
  unfold next. rewrite uint32_add_1_no_wrap by done.
  split; [lia|]. intros p id Hp%Hall. lia.
Qed.

End ControllerSpec.

(** ** The disk model is a quota store *)

#[global] Instance Disk_QuotaStore : QuotaStore Disk.
Proof.
  intros dev projectId quota k k'. cbn.
  unfold DiskModel.setProjectQuota, DiskModel.getProjectQuota.
  destruct (pquota k) eqn:Hp; [|done].
  intros [= <-]. cbn. by rewrite Hp, lookup_insert_eq.
Qed.

Example NewControl_sample :
  let '(c, err, w) := NewControl (Sample.config None) (Sample.world 7 true) in
  c = Run.control ∧ err = None
  ∧ trace w = [CallMakeBackingFsDev "/r" "__control-device"; CallReadDir "/r";
               CallGetProjectId "/r/a"; CallGetProjectId "/r/b";
               CallGetProjectId "/r/c"; CallGetProjectId "/r/z"].
Proof. vm_compute. by split_and!. Qed.

Example GetQuota_sample_uncached :
  GetQuota "/r/b" Run.control (Sample.world 7 true)
  = (inl (NotFoundError "/r/b"), Run.control, Sample.world 7 true).
Proof. reflexivity. Qed.

Lemma SetQuota_then_GetQuota_witness :
  Run.afterSet.1.1 = None
  ∧ ∃ w2, GetQuota "/r/b" Run.afterSet.1.2 Run.afterSet.2
          = (inr Sample.quota10M, Run.afterSet.1.2, w2).
Proof.
  split; [reflexivity|].
  apply (SetQuota_then_GetQuota "/r/b" Sample.quota10M Run.control
           (Sample.world 7 true)).
  vm_compute. reflexivity.
Defined.

Lemma SetQuota_cached_path_only_sets_limits_witness :
  ∃ e1 e2 w1 w2,
    SetQuota "/r/a" Sample.quota10M Run.control (Sample.world 7 true)
      = (e1, Run.control, w1)
    ∧ (e1, kernel w1) =
        (let (e, k) := k_SetProjectQuota "/r/__control-device" 7%N
                         Sample.quota10M (Sample.disk 7 true) in
         (QuotaSetError Sample.quota10M "/r/a" <$> e, k))
    ∧ trace w1 = [CallSetProjectQuota "/r/__control-device" 7 Sample.quota10M]
    ∧ SetQuota "/r/a" Sample.quota20M Run.control w1 = (e2, Run.control, w2)
    ∧ trace w2 =
        trace w1 ++ [CallSetProjectQuota "/r/__control-device" 7 Sample.quota20M]
    ∧ (e2 = None → (GetQuota "/r/a" Run.control w2).1.1 = inr Sample.quota20M).
Proof.
  apply (SetQuota_cached_path_only_sets_limits "/r/a" 7%N Sample.quota10M
           Sample.quota20M Run.control (Sample.world 7 true)).
  vm_compute. reflexivity.
Defined.

Lemma SetQuota_bind_failure_witness :
  ∃ c1 w1,
    SetQuota "/r/nowhere" Sample.quota10M Run.control (Sample.world 7 true)
      = (Some (BindError "/r/nowhere" (Errno "ENOTDIR")), c1, w1)
    ∧ c1 = Run.control
    ∧ projectIdCache c1 !! "/r/nowhere" = None
    ∧ lastProjectId c1 = 7%N
    ∧ w1 = mkWorld (Sample.disk 7 true) [CallSetProjectId "/r/nowhere" 8].
Proof.
  apply (SetQuota_bind_failure "/r/nowhere" Sample.quota10M Run.control
           (Sample.world 7 true) (Errno "ENOTDIR") (Sample.disk 7 true)).
  - vm_compute. reflexivity.
  - vm_compute. reflexivity.
Defined.

Lemma SetQuota_quota_failure_keeps_binding_witness :
  ∃ c1 w1,
    Run.afterFailedSet
      = (Some (QuotaSetError Sample.quota10M "/r/b" (Errno "ENOSYS")), c1, w1)
    ∧ projectIdCache c1 = <["/r/b" := 8%N]> (projectIdCache Run.control)
    ∧ projectIdCache c1 !! "/r/b" = Some 8%N
    ∧ lastProjectId c1 = 8%N
    ∧ backingFsBlockDev c1 = "/r/__control-device"
    ∧ w1 = mkWorld Run.diskBound
             [CallSetProjectId "/r/b" 8;
              CallSetProjectQuota "/r/__control-device" 8 Sample.quota10M].
Proof.
  apply (SetQuota_quota_failure_keeps_binding "/r/b" Sample.quota10M
           Run.control (Sample.world 7 false) (Errno "ENOSYS")
           Run.diskBound Run.diskBound).
  - vm_compute. reflexivity.
  - vm_compute. reflexivity.
  - vm_compute. reflexivity.
Defined.

Lemma NewControl_cache_is_scan_witness :
  let w' := snd (NewControl (Sample.config None) (Sample.world 7 true)) in
  ∃ files,
    k_ReadDir "/r" (kernel w') = inr files
    ∧ (∀ p id, projectIdCache Run.control !! p = Some id ↔
               ∃ file, file ∈ files ∧ IsDir file = true
                       ∧ p = k_Join "/r" (Name file)
                       ∧ k_GetProjectId p (kernel w') = inr id ∧ id ≠ 0%N)
    ∧ (∀ file, file ∈ files → IsDir file = true →
         k_GetProjectId (k_Join "/r" (Name file)) (kernel w') = inr 0%N →
         projectIdCache Run.control !! k_Join "/r" (Name file) = None)
    ∧ ((∀ f g, f ∈ files → g ∈ files →
          k_Join "/r" (Name f) = k_Join "/r" (Name g) → f = g) →
       ∀ file, file ∈ files → IsDir file = false →
         projectIdCache Run.control !! k_Join "/r" (Name file) = None).
Proof.
  apply (NewControl_cache_is_scan (Sample.config None) (Sample.world 7 true)).
  vm_compute. reflexivity.
Defined.

(** ** Allocation at the top of the id range *)

(** C1, on an input where it fails.  The controller is created with
    [StartingProjectId = 4294967295] over a root whose directory [a]
    carries project id 1.  Two successful [SetQuota] calls on the new
    paths [b] and [c] then bind the ids 0 and 1: not 4294967296 and
    4294967297, not increasing past the counter, and [c] receives the id
    [a] already has, so that [a] now reports the limits set for [c]. *)
Theorem SetQuota_wraps_onto_used_id :
  Run.top.1.2 = None
  ∧ lastProjectId Run.top.1.1 = 4294967295%N
  ∧ projectIdCache Run.top.1.1 = {[ "/r/a" := 1%N ]}
  ∧ Run.topB.1.1 = None
  ∧ Run.topC.1.1 = None
  ∧ lifetime [EvSetQuota "/r/b" Sample.quota10M;
              EvSetQuota "/r/c" Sample.quota20M] Run.top.1.1 Run.top.2
    = ([("/r/b", 0%N); ("/r/c", 1%N)], Run.topC.1.2, Run.topC.2)
  ∧ projectIdCache Run.topC.1.2 !! "/r/a" = Some 1%N
  ∧ projectIdCache Run.topC.1.2 !! "/r/c" = Some 1%N
  ∧ (GetQuota "/r/a" Run.topC.1.2 Run.topC.2).1.1 = inr Sample.quota20M.
Proof. vm_compute. by split_and!. Qed.

(** C6, on the same input.  [NewControl] does set [lastProjectId] to
    the maximum of the floor 4294967295 and the largest scanned id 1, but
    the next fresh allocation is 0, which is above neither. *)
Theorem NewControl_floor_then_wrap :
  Run.top.1.2 = None
  ∧ StartingProjectId Run.topConfig = Some 4294967295%N
  ∧ projectIdCache Run.top.1.1 !! "/r/a" = Some 1%N
  ∧ lastProjectId Run.top.1.1 = N.max 4294967295 1
  ∧ Run.topB.1.1 = None
  ∧ allocated "/r/b" Run.top.1.1 Run.topB.1.2 = [("/r/b", 0%N)]
  ∧ ¬ (4294967295 < 0)%N ∧ ¬ (1 < 0)%N.
Proof. vm_compute. split_and!; try reflexivity; by intros [=]. Qed.

(** ** Properties of the driver's lock *)

Module PluginSpec.
Import Plugin.

(** *** Value receivers: the source *)

(** With value receivers no step ever writes the handler's driver:
    its mutex stays unlocked whatever the goroutines do. *)
Lemma value_receiver_handler_untouched schedule :
  ∀ s s', run ByValue schedule s = Some s' → handler s' = handler s.
Proof.
  induction schedule as [|i rest IH]; intros s s'; cbn.
  - by intros [= <-].
  - destruct (step ByValue i s) as [s1|] eqn:Hstep; [|done].
    intros Hrun. rewrite (IH _ _ Hrun). clear Hrun IH.
    unfold step in Hstep.
    destruct (goroutines s !! i) as [g|]; [|done].
    destruct (todo g) as [|[] rest']; try done;
      try (by injection Hstep as <-).
    destruct (mutex (recv g)); [|done]. by injection Hstep as <-.
Qed.

(** C10, on an input where it fails.  Two [Create] requests are
    served by the driver [main] builds.  Goroutine 0 parses its size,
    locks and enters [manager.Create]; goroutine 1 then does the same
    without waiting, because the mutex it locks is the one in its own
    copy of the driver: both are inside the manager at once, on the
    same manager, each holding a lock. *)
Theorem Create_calls_overlap :
  ∃ s g0 g1,
    run ByValue [0; 0; 0; 1; 1; 1] twoCreates = Some s
    ∧ goroutines s = [g0; g1]
    ∧ inManager g0 = true ∧ inManager g1 = true
    ∧ count inManager (goroutines s) = 2
    ∧ manager (recv g0) = manager (recv g1)
    ∧ mutex (recv g0) = Locked ∧ mutex (recv g1) = Locked
    ∧ mutex (handler s) = Unlocked.
Proof. eexists _, _, _. vm_compute. by split_and!. Qed.

(** *** Pointer receivers: one shared mutex *)

Lemma bracketed_holdsLock t :
  ∀ held, bracketed held t = true →
          holdsLock (mkGoroutine (NewDriver "") t) = held.
Proof.
  unfold holdsLock. destruct t as [|[] rest]; intros [|]; cbn; done.
Qed.

Lemma body_bracketed r : bracketed false (body r) = true.
Proof. by destruct r. Qed.

Lemma count_insert f gs :
  ∀ i g g', gs !! i = Some g →
    count f (<[i := g']> gs) + weight f g = count f gs + weight f g'.
Proof.
  induction gs as [|g0 gs IH]; intros [|i] g g'; cbn; try done.
  - intros [= ->]. lia.
  - intros Hi. rewrite <- !Nat.add_assoc. f_equal. exact (IH _ _ g' Hi).
Qed.

Lemma count_mono (f f' : Goroutine → bool) gs :
  (∀ g, f g = true → f' g = true) → count f gs ≤ count f' gs.
Proof.
  intros Himp. induction gs as [|g gs IH]; cbn; [lia|].
  unfold weight. specialize (Himp g).
  destruct (f g), (f' g); lia.
Qed.

Lemma serve_sharedLockInv size reqs :
  sharedLockInv (serve (NewDriver size) reqs).
Proof.
  unfold sharedLockInv, serve. cbn.
  induction reqs as [|r reqs [IH1 IH2]]; cbn; [by split|].
  assert (Hh : holdsLock (mkGoroutine (NewDriver size) (body r)) = false)
    by by destruct r.
  split.
  - constructor; [|done]. cbn. rewrite Hh. apply body_bracketed.
  - unfold weight. by rewrite Hh, IH2.
Qed.

Lemma step_sharedLockInv i s s' :
  sharedLockInv s → step ByPointer i s = Some s' → sharedLockInv s'.
Proof.
  intros [Hwf Hcount]. unfold step.
  destruct (goroutines s !! i) as [g|] eqn:Hi; [|done].
  pose proof (Forall_lookup_1 _ _ _ _ Hwf Hi) as Hg. cbn in Hg.
  destruct (todo g) as [|ins rest] eqn:Htodo; [done|].
  assert (Hnext : ∀ held, bracketed held rest = true →
                          holdsLock (mkGoroutine (recv g) rest) = held).
  { intros held Hb. apply bracketed_holdsLock in Hb. exact Hb. }
  assert (Hstepped : ∀ d held,
             bracketed held rest = true →
             count holdsLock (goroutines s) + weight holdsLock
                                                 (mkGoroutine (recv g) rest)
               = lockedness (mutex d) + weight holdsLock g →
             sharedLockInv
               (mkServer d (<[i := mkGoroutine (recv g) rest]> (goroutines s)))).
  { intros d held Hb Hc. split; cbn.
    - apply Forall_insert; [done|]. cbn. by rewrite (Hnext _ Hb).
    - pose proof (count_insert holdsLock _ _ _ (mkGoroutine (recv g) rest) Hi).
      lia. }
  assert (Hheld : holdsLock g = match ins with
                                | Enter _ | Leave _ | Unlock => true
                                | _ => false
                                end).
  { unfold holdsLock. rewrite Htodo. by destruct ins. }
  unfold weight in Hstepped.
  destruct ins; rewrite Hheld in Hg; cbn in Hg; rewrite Hheld in Hstepped.
  - intros [= <-]. apply (Hstepped _ false Hg).
    rewrite (Hnext _ Hg). lia.
  - destruct (mutex (handler s)) eqn:Hm; [|done].
    intros [= <-]. apply (Hstepped _ true Hg).
    rewrite (Hnext _ Hg). cbn in *. lia.
  - intros [= <-]. apply (Hstepped _ true Hg).
    rewrite (Hnext _ Hg). lia.
  - intros [= <-]. apply (Hstepped _ true Hg).
    rewrite (Hnext _ Hg). lia.
  - intros [= <-]. apply (Hstepped _ false Hg).
    rewrite (Hnext _ Hg). cbn.
    pose proof (count_insert holdsLock _ _ _ g Hi) as Hc.
    rewrite list_insert_id in Hc by done.
    assert (0 < count holdsLock (goroutines s)).
    { clear -Hi Hheld. revert i Hi.
      induction (goroutines s) as [|g0 gs IH]; intros [|i]; cbn; try done.
      - intros [= ->]. unfold weight. rewrite Hheld. lia.
      - intros Hi%IH. lia. }
    destruct (mutex (handler s)); cbn in *; lia.
Qed.

Lemma run_sharedLockInv schedule :
  ∀ s s', sharedLockInv s → run ByPointer schedule s = Some s' →
          sharedLockInv s'.
Proof.
  induction schedule as [|i rest IH]; intros s s' Hinv; cbn.
  - by intros [= <-].
  - destruct (step ByPointer i s) as [s1|] eqn:Hstep; [|done].
    apply IH. by eapply step_sharedLockInv.
Qed.

(** Had the methods pointer receivers, the same steps would exclude
    each other: under every schedule at most one goroutine is inside
    the manager. *)
Lemma pointer_receiver_excludes size reqs schedule s :
  run ByPointer schedule (serve (NewDriver size) reqs) = Some s →
  count inManager (goroutines s) ≤ 1.
Proof.
  intros Hrun.
  destruct (run_sharedLockInv _ _ _ (serve_sharedLockInv size reqs) Hrun)
    as [_ Hcount].
  transitivity (count holdsLock (goroutines s)).
  - apply count_mono. intros g. unfold inManager, holdsLock.
    by destruct (todo g) as [|[] ?].
  - rewrite Hcount. destruct (mutex (handler s)); cbn; lia.
Qed.

End PluginSpec.

(** ** More about the controller *)

Section ControllerMore.
Context {K : Type} `{!Kernel K}.
Implicit Types (c : Control) (w : World K) (q quota : Quota).
Implicit Types (path targetPath dev : string) (id projectId : N).

(** *** How [NewControl] succeeds and fails *)

Lemma scanFiles_succeeds_iff root files :
  ∀ mapping w,
    (scanFiles root files mapping w).1.2 = None ↔
    ∀ file, file ∈ files → IsDir file = true →
            ∃ id, k_GetProjectId (k_Join root (Name file)) (kernel w) = inr id.
Proof.
  induction files as [|file rest IH]; intros mapping w; cbn.
  - split; [|done]. intros _ file Hin. by apply elem_of_nil in Hin.
  - destruct (IsDir file) eqn:Hdir; cbn.
    + destruct (k_GetProjectId _ _) as [err|projectId] eqn:Hid; cbn.
      * split; [done|]. intros Hall.
        destruct (Hall file) as [id Hid']; [by left|done|congruence].
      * assert (Hrest : ∀ m,
                   (scanFiles root rest m
                      (record (CallGetProjectId (k_Join root (Name file)))
                         (kernel w) w)).1.2 = None ↔
                   ∀ f, f ∈ file :: rest → IsDir f = true →
                        ∃ id, k_GetProjectId (k_Join root (Name f)) (kernel w)
                              = inr id).
        { intros m. rewrite IH. cbn. split.
          - intros Hall f [->|Hin]%elem_of_cons ?; [by eexists|by apply Hall].
          - intros Hall f Hin. apply Hall. by right. }
        destruct (0 <? projectId)%N; apply Hrest.
    + rewrite IH. split.
      * intros Hall f [->|Hin]%elem_of_cons ?; [congruence|by apply Hall].
      * intros Hall f Hin. apply Hall. by right.
Qed.

(** X1. [NewControl] succeeds exactly when the base path is not empty, the
    control file can be made, the base path can then be listed, and the
    project id of every directory in the listing can be read. *)
Theorem NewControl_succeeds_iff cfg w :
  (NewControl cfg w).1.2 = None ↔
  BasePath cfg ≠ ""
  ∧ ∃ k1 files,
      k_MakeBackingFsDev (BasePath cfg) blockDeviceName (kernel w) = (None, k1)
      ∧ k_ReadDir (BasePath cfg) k1 = inr files
      ∧ ∀ file, file ∈ files → IsDir file = true →
          ∃ id, k_GetProjectId (k_Join (BasePath cfg) (Name file)) k1 = inr id.
Proof.
  unfold NewControl, MakeBackingFsDev, GeneratePathToProjectIdMap, ReadDir.
  case_decide as Hbase; cbn.
  { split; [done|]. by intros [? _]. }
  destruct (k_MakeBackingFsDev _ _ _) as [[e|] k1] eqn:Hmk; cbn.
  { split; [done|]. by intros (_ & k1' & files & [=] & _). }
  destruct (k_ReadDir _ _) as [e|files] eqn:Hrd; cbn.
  { split; [done|]. intros (_ & k1' & files & [= <-] & Hrd' & _). congruence. }
  match goal with
  | |- context [scanFiles ?r ?f ?m ?x] =>
      pose proof (scanFiles_succeeds_iff r f m x) as Hscan;
      destruct (scanFiles r f m x) as [[mapping [e|]] w2]
  end; cbn in *.
  - split; [done|]. intros (_ & k1' & files' & [= <-] & Hrd' & Hall).
    rewrite Hrd in Hrd'. injection Hrd' as <-. by apply Hscan in Hall.
  - split; [|done]. intros _. split; [done|].
    exists k1, files. split_and!; [done|done|]. by apply Hscan.
Qed.

Lemma scanFiles_calls root files :
  ∀ mapping w m' w',
    scanFiles root files mapping w = (m', None, w') →
    trace w' = trace w ++ scanCalls root files.
Proof.
  unfold scanCalls.
  induction files as [|file rest IH]; intros mapping w m' w';
    cbn [scanFiles].
  - intros [= _ <-]. cbn. by rewrite (right_id_L [] (++)).
  - destruct (IsDir file) eqn:Hdir; cbn [negb].
    + rewrite filter_cons_True by done. unfold GetProjectId.
      destruct (k_GetProjectId _ _) as [err|projectId]; [done|].
      destruct (0 <? projectId)%N; intros Hs; apply IH in Hs;
        rewrite Hs; cbn; by rewrite <- (assoc_L (++)).
    + rewrite filter_cons_False by congruence. apply IH.
Qed.

(** X2. A successful [NewControl] issues these calls and no other: it makes
    the control file, lists the base path, and reads the project id of
    each directory of the listing once, in listing order.  Entries that
    are not directories are never queried, and nothing is written
    besides the control file. *)
Theorem NewControl_calls cfg w c w' :
  NewControl cfg w = (c, None, w') →
  ∃ files,
    k_ReadDir (BasePath cfg) (kernel w') = inr files
    ∧ k_MakeBackingFsDev (BasePath cfg) blockDeviceName (kernel w)
        = (None, kernel w')
    ∧ trace w' =
        trace w
        ++ [CallMakeBackingFsDev (BasePath cfg) blockDeviceName;
            CallReadDir (BasePath cfg)]
        ++ scanCalls (BasePath cfg) files.
Proof.
  unfold NewControl, MakeBackingFsDev, GeneratePathToProjectIdMap, ReadDir.
  case_decide; [done|].
  destruct (k_MakeBackingFsDev _ _ _) as [[e|] k1] eqn:Hmk; [done|]. cbn.
  destruct (k_ReadDir _ _) as [e|files] eqn:Hrd; [done|].
  match goal with
  | |- context [scanFiles ?r ?f ?m ?x] =>
      destruct (scanFiles r f m x) as [[mapping [e|]] w2] eqn:Hscan
  end; [done|].
  intros [= _ <-].
  pose proof (scanFiles_kernel _ _ _ _ _ _ _ Hscan) as Hk. cbn in Hk.
  exists files. rewrite Hk. split_and!; [done|done|].
  rewrite (scanFiles_calls _ _ _ _ _ _ Hscan). cbn.
  by rewrite <- !(assoc_L (++)).
Qed.

Lemma scanFiles_first_failure root pre file post e :
  ∀ mapping w,
    (∀ g, g ∈ pre → IsDir g = true →
          ∃ id, k_GetProjectId (k_Join root (Name g)) (kernel w) = inr id) →
    IsDir file = true →
    k_GetProjectId (k_Join root (Name file)) (kernel w) = inl e →
    ∃ m' w',
      scanFiles root (pre ++ file :: post) mapping w
      = (m',
         Some (Wrapf e "failed to retrieve projectid for directory %s"
                 [AStr (k_Join root (Name file))]),
         w')
      ∧ kernel w' = kernel w
      ∧ trace w' = trace w ++ scanCalls root pre
                     ++ [CallGetProjectId (k_Join root (Name file))].
Proof.
  unfold scanCalls.
  induction pre as [|g pre IH]; intros mapping w Hpre Hdir Hfail;
    cbn [app scanFiles]; unfold GetProjectId.
  - rewrite Hdir. cbn. rewrite Hfail. by eexists _, _.
  - assert (Hpre' : ∀ g', g' ∈ pre → IsDir g' = true →
              ∃ id, k_GetProjectId (k_Join root (Name g')) (kernel w) = inr id).
    { intros g' Hin. apply Hpre. by right. }
    destruct (IsDir g) eqn:Hg; cbn [negb].
    + rewrite filter_cons_True by done.
      destruct (Hpre g) as [id Hid]; [by left|done|]. rewrite Hid.
      destruct (0 <? id)%N;
        match goal with
        | |- context [scanFiles root _ ?m ?x] =>
            destruct (IH m x Hpre' Hdir Hfail) as (m' & w' & -> & Hk & Htr)
        end; eexists _, _; (split_and!; [done|done|]);
        rewrite Htr; cbn; by rewrite <- !(assoc_L (++)).
    + rewrite filter_cons_False by congruence.
      destruct (IH mapping w Hpre' Hdir Hfail) as (m' & w' & -> & Hk & Htr).
      by eexists _, _.
Qed.

(** X3. When the project id of a directory cannot be read, [NewControl]
    fails with that failure wrapped twice, naming the directory and the
    base path.  It stops at the first such directory of the listing: no
    later entry is queried, and the counter is left at the configured
    floor. *)
Theorem NewControl_scan_failure cfg w k1 pre file post e :
  BasePath cfg ≠ "" →
  k_MakeBackingFsDev (BasePath cfg) blockDeviceName (kernel w) = (None, k1) →
  k_ReadDir (BasePath cfg) k1 = inr (pre ++ file :: post) →
  (∀ g, g ∈ pre → IsDir g = true →
        ∃ id, k_GetProjectId (k_Join (BasePath cfg) (Name g)) k1 = inr id) →
  IsDir file = true →
  k_GetProjectId (k_Join (BasePath cfg) (Name file)) k1 = inl e →
  (NewControl cfg w).1.2
  = Some (Wrapf
            (Wrapf e "failed to retrieve projectid for directory %s"
               [AStr (k_Join (BasePath cfg) (Name file))])
            "failed to create projectid cache from basepath %s"
            [AStr (BasePath cfg)])
  ∧ lastProjectId (NewControl cfg w).1.1 = default 0%N (StartingProjectId cfg)
  ∧ kernel (NewControl cfg w).2 = k1
  ∧ trace (NewControl cfg w).2 =
      trace w
      ++ [CallMakeBackingFsDev (BasePath cfg) blockDeviceName;
          CallReadDir (BasePath cfg)]
      ++ scanCalls (BasePath cfg) pre
      ++ [CallGetProjectId (k_Join (BasePath cfg) (Name file))].
Proof.
  intros Hbase Hmk Hrd Hpre Hdir Hfail.
  unfold NewControl, MakeBackingFsDev, GeneratePathToProjectIdMap, ReadDir.
  case_decide; [done|]. rewrite Hmk. cbn. rewrite Hrd.
  match goal with
  | |- context [scanFiles ?r _ ?m ?x] =>
      destruct (scanFiles_first_failure r pre file post e m x Hpre Hdir Hfail)
        as (m' & w' & -> & Hk & Htr)
  end.
  cbn in *. split_and!; [done| |done|].
  - by destruct (StartingProjectId cfg).
  - rewrite Htr. by rewrite <- !(assoc_L (++)).
Qed.

(** *** Invariants of the cache *)

(** X5. After a successful [NewControl] every cached id is non-zero and at
    most [lastProjectId]. *)
Theorem NewControl_ids_in_range cfg w c w' :
  NewControl cfg w = (c, None, w') → idsInRange c.
Proof.
  intros Hnew.
  pose proof (NewControl_lastProjectId_is_max _ _ _ _ Hnew) as (_ & Hle & _).
  apply NewControl_success in Hnew
    as (_ & _ & _ & _ & files & w1 & _ & _ & Hscan).
  assert (Hempty : ∀ p id, (∅ : gmap string N) !! p = Some id →
                           k_GetProjectId p (kernel w1) = inr id)
    by (intros ??; by rewrite lookup_empty).
  intros p id Hp. split; [|by eapply Hle].
  apply (scanFiles_success _ _ _ _ _ _ Hempty Hscan) in Hp
    as [(f & _ & _ & _ & _ & Hnz)|Hp]; [lia|by rewrite lookup_empty in Hp].
Qed.

(** X8. As long as the counter has room, [SetQuota] keeps the cached ids
    non-zero and at most [lastProjectId], whatever its outcome, and
    moves the counter up by one at most. *)
Theorem SetQuota_keeps_ids_in_range path q c w :
  idsInRange c →
  (lastProjectId c < uint32_max)%N →
  idsInRange (SetQuota path q c w).1.2
  ∧ (lastProjectId c ≤ lastProjectId (SetQuota path q c w).1.2)%N
  ∧ (lastProjectId (SetQuota path q c w).1.2 ≤ lastProjectId c + 1)%N.
Proof.
  intros Hin Hroom.
  destruct (SetQuota_Control path q c w) as [[-> _]|(_ & -> & _)].
  - split_and!; [done|lia|lia].
  - rewrite uint32_add_1_no_wrap by done. cbn.
    split_and!; [|lia|lia].
    intros p id. cbn. rewrite lookup_insert. case_decide.
    + intros [= <-]. lia.
    + intros [??]%Hin. lia.
Qed.

(** X9. As long as the counter has room and the cached ids are at most
    [lastProjectId], [SetQuota] never makes two paths share an id: a
    cache with distinct ids stays one. *)
Theorem SetQuota_keeps_ids_distinct path q c w :
  idsInRange c →
  idsDistinct c →
  (lastProjectId c < uint32_max)%N →
  idsDistinct (SetQuota path q c w).1.2.
Proof.
  intros Hin Hdist Hroom.
  destruct (SetQuota_Control path q c w) as [[-> _]|(_ & -> & _)]; [done|].
  rewrite uint32_add_1_no_wrap by done.
  intros p1 p2 id. cbn. rewrite !lookup_insert.
  repeat case_decide; subst.
  - done.
  - intros [= <-] [_ ?]%Hin. lia.
  - intros [_ ?]%Hin [= <-]. lia.
  - apply Hdist.
Qed.

(** X7. Whatever its outcome, [SetQuota] keeps the device path, every
    cache entry there was, and adds no entry for any other path. *)
Theorem SetQuota_frame path q c w :
  backingFsBlockDev (SetQuota path q c w).1.2 = backingFsBlockDev c
  ∧ (∀ p id, projectIdCache c !! p = Some id →
             projectIdCache (SetQuota path q c w).1.2 !! p = Some id)
  ∧ (∀ p, p ≠ path →
          projectIdCache (SetQuota path q c w).1.2 !! p
          = projectIdCache c !! p).
Proof.
  split; [apply SetQuota_backingFsBlockDev|].
  destruct (SetQuota_Control path q c w) as [[-> _]|(Hc & -> & _)];
    [done|]. cbn. split.
  - intros p id Hp. rewrite lookup_insert_ne; [done|]. congruence.
  - intros p Hne. by rewrite lookup_insert_ne.
Qed.

(** X6. On a path without cache entry, when both the attribute-bind call
    and the quota-set call succeed, [SetQuota] succeeds after exactly
    these two calls; the path is cached under [lastProjectId + 1]
    (modulo [2^32]) and the counter is that id. *)
Theorem SetQuota_fresh_success path q c w k1 k2 :
  let id := uint32_add (lastProjectId c) 1 in
  let dev := backingFsBlockDev c in
  projectIdCache c !! path = None →
  k_SetProjectId path id (kernel w) = (None, k1) →
  k_SetProjectQuota dev id q k1 = (None, k2) →
  SetQuota path q c w =
    (None,
     mkControl dev (<[path := id]> (projectIdCache c)) id,
     mkWorld k2
       (trace w ++ [CallSetProjectId path id; CallSetProjectQuota dev id q])).
Proof.
  intros id dev Hc Hk1 Hk2. unfold SetQuota.
  rewrite (bindProjectId_fresh _ _ _ _ _ Hc Hk1). cbn.
  unfold SetProjectQuota. cbn. fold id dev. rewrite Hk2.
  unfold record. cbn. by rewrite <- (assoc_L (++)).
Qed.

(** *** Quotas of different paths *)

(** X10. As long as the counter has room and the cached ids are distinct
    and at most [lastProjectId], a [SetQuota] on one path, whatever its
    outcome, does not change what [GetQuota] reports for another cached
    path, on a kernel that keeps limits per project id. *)
Theorem SetQuota_keeps_other_quota `{!QuotaIsolation K} p1 p2 id1 q2 c w :
  p1 ≠ p2 →
  idsInRange c →
  idsDistinct c →
  (lastProjectId c < uint32_max)%N →
  projectIdCache c !! p1 = Some id1 →
  (GetQuota p1 (SetQuota p2 q2 c w).1.2 (SetQuota p2 q2 c w).2).1.1
  = (GetQuota p1 c w).1.1.
Proof.
  intros Hne Hin Hdist Hroom Hp1.
  assert (Hp1' : projectIdCache (SetQuota p2 q2 c w).1.2 !! p1 = Some id1).
  { destruct (SetQuota_Control p2 q2 c w) as [[-> _]|(_ & -> & _)]; [done|].
    cbn. by rewrite lookup_insert_ne. }
  rewrite (GetQuota_cached _ _ _ _ Hp1'), (GetQuota_cached _ _ _ _ Hp1).
  rewrite SetQuota_backingFsBlockDev. cbn.
  assert (Hk : k_GetProjectQuota (backingFsBlockDev c) id1
                 (kernel (SetQuota p2 q2 c w).2)
               = k_GetProjectQuota (backingFsBlockDev c) id1 (kernel w));
    [|by rewrite Hk].
  clear Hp1'.
  unfold SetQuota, bindProjectId, SetProjectId, SetProjectQuota.
  destruct (projectIdCache c !! p2) as [id2|] eqn:Hp2.
  - destruct (k_SetProjectQuota _ _ _ _) as [[e|] k'] eqn:Hset; cbn;
      apply (set_keeps_other_limits _ _ _ _ _ _ _ Hset);
      intros ->; by specialize (Hdist _ _ _ Hp1 Hp2).
  - destruct (k_SetProjectId _ _ _) as [[e|] kb] eqn:Hbind; cbn.
    + apply (bind_keeps_limits _ _ _ _ _ _ _ Hbind).
    + destruct (k_SetProjectQuota _ _ _ _) as [[e|] k'] eqn:Hset; cbn;
        (rewrite (set_keeps_other_limits _ _ _ _ _ _ id1 Hset);
         [apply (bind_keeps_limits _ _ _ _ _ _ _ Hbind)|]);
        rewrite uint32_add_1_no_wrap by done;
        apply Hin in Hp1 as [_ ?]; lia.
Qed.

End ControllerMore.

(** *** The disk model keeps limits per project id *)

#[global] Instance Disk_QuotaIsolation : QuotaIsolation Disk.
Proof.
  split.
  - intros path projectId k err k' dev id. cbn.
    unfold DiskModel.setProjectId, DiskModel.getProjectQuota.
    destruct (projid k !! path); by intros [= <- <-].
  - intros dev projectId quota k err k' id. cbn.
    unfold DiskModel.setProjectQuota, DiskModel.getProjectQuota.
    destruct (pquota k) eqn:Hp; intros [= <- <-] Hne; cbn; rewrite Hp;
      [|done].
    rewrite lookup_insert_ne; [done|]. congruence.
Qed.

(** *** The further properties on the sample disks *)

Lemma Run_control_ids_in_range : idsInRange Run.control.
Proof.
  intros p id. cbn. intros [<- <-]%lookup_singleton_Some. lia.
Qed.

Lemma Run_control_ids_distinct : idsDistinct Run.control.
Proof.
  intros p1 p2 id. cbn.
  intros [<- _]%lookup_singleton_Some [<- _]%lookup_singleton_Some.
  done.
Qed.

Lemma NewControl_calls_witness :
  let w' := (NewControl (Sample.config None) (Sample.world 7 true)).2 in
  ∃ files,
    k_ReadDir "/r" (kernel w') = inr files
    ∧ k_MakeBackingFsDev "/r" blockDeviceName (Sample.disk 7 true)
        = (None, kernel w')
    ∧ trace w' =
        [] ++ [CallMakeBackingFsDev "/r" blockDeviceName; CallReadDir "/r"]
           ++ scanCalls "/r" files.
Proof.
  apply (NewControl_calls (Sample.config None) (Sample.world 7 true)
           Run.control).
  vm_compute. reflexivity.
Defined.

Lemma NewControl_scan_failure_witness :
  let cfg := Sample.config (Some 3%N) in
  (NewControl cfg Sample2.brokenWorld).1.2
  = Some (Wrapf
            (Wrapf (Errno "ENOTDIR")
               "failed to retrieve projectid for directory %s" [AStr "/r/x"])
            "failed to create projectid cache from basepath %s" [AStr "/r"])
  ∧ lastProjectId (NewControl cfg Sample2.brokenWorld).1.1 = 3%N
  ∧ kernel (NewControl cfg Sample2.brokenWorld).2 = Sample2.brokenDiskDev
  ∧ trace (NewControl cfg Sample2.brokenWorld).2 =
      [] ++ [CallMakeBackingFsDev "/r" blockDeviceName; CallReadDir "/r"]
         ++ scanCalls "/r" [ {| Name := "a"; IsDir := true |};
                             {| Name := "f"; IsDir := false |} ]
         ++ [CallGetProjectId "/r/x"].
Proof.
  intros cfg.
  assert (Hpre : ∀ g, g ∈ [ {| Name := "a"; IsDir := true |};
                            {| Name := "f"; IsDir := false |} ] →
            IsDir g = true →
            ∃ id, k_GetProjectId (k_Join (BasePath cfg) (Name g))
                    Sample2.brokenDiskDev = inr id).
  { intros g [->|[->|Hin%elem_of_nil]%elem_of_cons]%elem_of_cons Hdir;
      [|done|done].
    exists 7%N. vm_compute. reflexivity. }
  exact (NewControl_scan_failure cfg
           Sample2.brokenWorld Sample2.brokenDiskDev
           [ {| Name := "a"; IsDir := true |};
             {| Name := "f"; IsDir := false |} ]
           {| Name := "x"; IsDir := true |}
           [ {| Name := "z"; IsDir := true |};
             {| Name := "__control-device"; IsDir := false |} ]
           (Errno "ENOTDIR")
           ltac:(done) ltac:(vm_compute; reflexivity)
           ltac:(vm_compute; reflexivity) Hpre eq_refl
           ltac:(vm_compute; reflexivity)).
Defined.

Lemma NewControl_ids_in_range_witness : idsInRange Run.control.
Proof.
  apply (NewControl_ids_in_range (Sample.config None) (Sample.world 7 true)
           Run.control
           (NewControl (Sample.config None) (Sample.world 7 true)).2).
  vm_compute. reflexivity.
Defined.

Lemma SetQuota_keeps_ids_in_range_witness :
  idsInRange Run.afterSet.1.2
  ∧ (7 ≤ lastProjectId Run.afterSet.1.2)%N
  ∧ (lastProjectId Run.afterSet.1.2 ≤ 7 + 1)%N.
Proof.
  apply (SetQuota_keeps_ids_in_range "/r/b" Sample.quota10M Run.control
           (Sample.world 7 true)).
  - exact Run_control_ids_in_range.
  - by vm_compute.
Defined.

Lemma SetQuota_keeps_ids_distinct_witness : idsDistinct Run.afterSet.1.2.
Proof.
  apply (SetQuota_keeps_ids_distinct "/r/b" Sample.quota10M Run.control
           (Sample.world 7 true)).
  - exact Run_control_ids_in_range.
  - exact Run_control_ids_distinct.
  - by vm_compute.
Defined.

Lemma SetQuota_fresh_success_witness :
  Run.afterSet =
    (None,
     mkControl "/r/__control-device"
       (<["/r/b" := 8%N]> (projectIdCache Run.control)) 8,
     mkWorld
       (DiskModel.set_limits
          {[ ("/r/__control-device", 8%N) := Sample.quota10M ]}
          (DiskModel.set_projid (<["/r/b" := 8%N]> (projid (Sample.disk 7 true)))
             (Sample.disk 7 true)))
       [CallSetProjectId "/r/b" 8;
        CallSetProjectQuota "/r/__control-device" 8 Sample.quota10M]).
Proof.
  apply (SetQuota_fresh_success "/r/b" Sample.quota10M Run.control
           (Sample.world 7 true)
           (DiskModel.set_projid
              (<["/r/b" := 8%N]> (projid (Sample.disk 7 true)))
              (Sample.disk 7 true))).
  - vm_compute. reflexivity.
  - vm_compute. reflexivity.
  - vm_compute. reflexivity.
Defined.

Lemma SetQuota_keeps_other_quota_witness :
  (GetQuota "/r/a" Run.control Sample2.worldWithLimits).1.1
  = inr Sample.quota10M
  ∧ (GetQuota "/r/a"
       (SetQuota "/r/b" Sample.quota20M Run.control Sample2.worldWithLimits).1.2
       (SetQuota "/r/b" Sample.quota20M Run.control Sample2.worldWithLimits).2
    ).1.1
    = (GetQuota "/r/a" Run.control Sample2.worldWithLimits).1.1.
Proof.
  split; [vm_compute; reflexivity|].
  apply (SetQuota_keeps_other_quota "/r/a" "/r/b" 7%N Sample.quota20M
           Run.control Sample2.worldWithLimits).
  - done.
  - exact Run_control_ids_in_range.
  - exact Run_control_ids_distinct.
  - by vm_compute.
  - vm_compute. reflexivity.
Defined.

Lemma lifetime_ids_increase_witness :
  let events := [EvSetQuota "/r/b" Sample.quota10M; EvGetQuota "/r/b";
                 EvForget "/r/b"; EvSetQuota "/r/c" Sample.quota20M] in
  let run := lifetime events Run.control (Sample.world 7 true) in
  run.1.1 = [("/r/b", 8%N); ("/r/c", 9%N)]
  ∧ (lastProjectId Run.control ≤ lastProjectId run.1.2)%N
  ∧ (lastProjectId run.1.2
     ≤ lastProjectId Run.control + N.of_nat (length events))%N
  ∧ StronglySorted N.lt run.1.1.*2
  ∧ Forall (λ id, lastProjectId Run.control < id ≤ lastProjectId run.1.2)%N
      run.1.1.*2.
Proof.
  intros events run. split; [vm_compute; reflexivity|].
  apply (lifetime_ids_increase events Run.control (Sample.world 7 true)
           run.1.1 run.1.2 run.2).
  - by vm_compute.
  - vm_compute. reflexivity.
Defined.

Lemma SetQuotaAll_fresh_ids_witness :
  let reqs := [("/r/b", Sample.quota10M); ("/r/c", Sample.quota20M)] in
  ∃ c' w',
    SetQuotaAll reqs Run.control (Sample.world 7 true) = Some (c', w')
    ∧ lastProjectId c' = (7 + 2)%N
    ∧ (∀ p id, projectIdCache Run.control !! p = Some id →
               projectIdCache c' !! p = Some id)
    ∧ ∀ i p q, reqs !! i = Some (p, q) →
        projectIdCache c' !! p = Some (7 + N.of_nat (S i))%N.
Proof.
  intros reqs.
  destruct (SetQuotaAll reqs Run.control (Sample.world 7 true))
    as [[c' w']|] eqn:Hrun; [|by vm_compute in Hrun].
  exists c', w'. split; [done|].
  apply (SetQuotaAll_fresh_ids reqs Run.control (Sample.world 7 true) c' w').
  - cbn. apply NoDup_cons. split; [|apply NoDup_singleton].
    intros Hin%list_elem_of_singleton. discriminate Hin.
  - cbn. intros p [->|Hin%list_elem_of_singleton]%elem_of_cons;
      [|subst p]; reflexivity.
  - by vm_compute.
  - exact Hrun.
Defined.

(** ** Properties of the driver's methods, for every manager *)

Module DriverSpec.
Import DriverOps.

Section WithManager.
Context {M : Type} `{!manager.API M}.

(** X13. [NewDriver] returns a driver exactly when both configuration
    fields are non-empty and the manager can be created.  It does not
    reach the manager when a field is empty, and it takes the default
    size as it is given. *)
Theorem NewDriver_succeeds_iff cfg (m : M) :
  ((∃ d, (NewDriver cfg m).1 = inr d) ↔
     HostMountpoint cfg ≠ "" ∧ DefaultSize cfg ≠ ""
     ∧ (manager.New (HostMountpoint cfg) m).1 = None)
  ∧ (HostMountpoint cfg = "" ∨ DefaultSize cfg = "" →
     (NewDriver cfg m).2 = m ∧ ∃ msg, (NewDriver cfg m).1 = inl (Errorf msg []))
  ∧ (∀ d, (NewDriver cfg m).1 = inr d → defaultSize d = DefaultSize cfg).
Proof.
  unfold NewDriver.
  destruct (decide (HostMountpoint cfg = "")) as [Hh|Hh].
  { split_and!.
    - split; [by intros [d ?]|by intros [? _]].
    - intros _. split; [done|by eexists].
    - done. }
  destruct (decide (DefaultSize cfg = "")) as [Hs|Hs].
  { split_and!.
    - split; [by intros [d ?]|by intros (_ & ? & _)].
    - intros _. split; [done|by eexists].
    - done. }
  destruct (manager.New _ _) as [[e|] m1]; cbn.
  - split_and!.
    + split; [by intros [d ?]|by intros (_ & _ & ?)].
    + by intros [?|?].
    + done.
  - split_and!.
    + split; [done|]. intros _. by eexists.
    + by intros [?|?].
    + by intros d [= <-].
Qed.

(** X14. [NewDriver] does not check that the default size can be read.
    With one that cannot, every [Create] request without a ["size"]
    option fails, before the lock is taken and without reaching the
    manager. *)
Theorem NewDriver_unread_default cfg (m m1 m2 : M) d req e :
  NewDriver cfg m = (inr d, m1) →
  manager.FromHumanSize (DefaultSize cfg) = inl e →
  v.Options req !! "size" = None →
  Create d req m2 =
    (Some (Errorf "couldn't convert specified size [%s] into bytes"
             [AStr (DefaultSize cfg)]),
     m2, [Plugin.FromHumanSize]).
Proof.
  intros Hnew Hparse Hopt.
  assert (Hd : defaultSize d = DefaultSize cfg).
  { revert Hnew. unfold NewDriver. repeat case_decide; try done.
    destruct (manager.New _ _) as [[e'|] m']; [done|]. by intros [= <- _]. }
  unfold Create. by rewrite Hopt, Hd, Hparse.
Qed.

(** X15. [Create] reads the request's name and its ["size"] option, the
    default size standing in only when the option is absent, and nothing
    else: two requests that agree on these are served alike. *)
Theorem Create_reads_name_and_size_only d d' req req' (m : M) :
  v.ReqName req = v.ReqName req' →
  default (defaultSize d) (v.Options req !! "size")
  = default (defaultSize d') (v.Options req' !! "size") →
  Create d req m = Create d' req' m.
Proof.
  intros Hname Hsize. unfold Create.
  change (match v.Options req !! "size" with
          | Some size => size
          | None => defaultSize d
          end) with (default (defaultSize d) (v.Options req !! "size")).
  change (match v.Options req' !! "size" with
          | Some size => size
          | None => defaultSize d'
          end) with (default (defaultSize d') (v.Options req' !! "size")).
  by rewrite Hsize, Hname.
Qed.

(** X16. [Path] and [Mount] succeed exactly when [Get] does, with the
    mountpoint [Get] reports, and leave the manager in the state [Get]
    leaves it in: mounting does nothing beyond looking the volume up. *)
Theorem Path_Mount_agree_with_Get d name (m : M) :
  (∀ mp, (Path d name m).1.1 = inr mp ↔
         (Get d name m).1.1 = inr {| v.Name := name; v.Mountpoint := mp |})
  ∧ (∀ mp, (Mount d name m).1.1 = inr mp ↔
           (Get d name m).1.1 = inr {| v.Name := name; v.Mountpoint := mp |})
  ∧ (Path d name m).1.2 = (Get d name m).1.2
  ∧ (Mount d name m).1.2 = (Get d name m).1.2
  ∧ ((Get d name m).1.1 = inl (Errorf "volume %s not found" [AStr name]) ↔
     (manager.Get name m).1 = inr None).
Proof.
  unfold Path, Mount, Get.
  destruct (manager.Get name m) as [[e|[vol|]] m1]; cbn;
    split_and!; try done; intros mp; split; try done;
    by intros [= <-].
Qed.

(** X17. [List] reports the volumes the manager lists, in the same order,
    by name only: every mountpoint in the response is empty. *)
Theorem List_names_in_order d (m : M) resp :
  (List d m).1.1 = inr resp →
  ∃ vols,
    (manager.List m).1 = inr vols
    ∧ v.Name <$> resp = manager.Name <$> vols
    ∧ length resp = length vols
    ∧ Forall (λ vol, v.Mountpoint vol = "") resp.
Proof.
  unfold List. destruct (manager.List m) as [[e|vols] m1]; cbn; [done|].
  intros [= <-]. exists vols. split_and!; [done| | |].
  - rewrite <- list_fmap_compose. by apply list_fmap_ext.
  - by rewrite length_fmap.
  - apply Forall_fmap, Forall_true. done.
Qed.


(** X20. [lsAction] prints the command help exactly when no root is given.
    When it fails the exit code is 1 and no table is written; when it
    succeeds the table is the header followed by one row per volume the
    manager lists, in the manager's order, then flushed. *)
Theorem lsAction_output root (m : M) :
  ((Ls.lsAction root m).2 = [Ls.ShowCommandHelp "ls"] ↔ root = "")
  ∧ match (Ls.lsAction root m).1.1 with
    | Some e =>
        Ls.exitCode e = 1%N
        ∧ Forall (λ o, o ≠ Ls.Header ∧ Ls.isRow o = false ∧ o ≠ Ls.Flush)
            (Ls.lsAction root m).2
    | None =>
        root ≠ ""
        ∧ ∃ m1 vols,
            manager.New root m = (None, m1)
            ∧ (manager.List m1).1 = inr vols
            ∧ (Ls.lsAction root m).2
              = Ls.Header :: (Ls.row <$> vols) ++ [Ls.Flush]
            ∧ length (filter (λ o, Ls.isRow o = true) (Ls.lsAction root m).2)
              = length vols
    end.
Proof.
  unfold Ls.lsAction. case_decide as Hroot; cbn.
  { split; [done|]. split; [done|]. by repeat constructor. }
  destruct (manager.New root m) as [[e|] m1]; cbn.
  { split; [done|]. by split. }
  destruct (manager.List m1) as [[e|vols] m2] eqn:Hlist; cbn.
  { split; [done|]. by split. }
  split.
  - split; [by intros [=]|done].
  - split; [done|]. exists m1, vols.
    split_and!; [done|by rewrite Hlist|done|].
    case_decide; [done|]. clear.
    induction vols as [|vol vols IH]; [done|].
    rewrite fmap_cons, <- app_comm_cons.
    rewrite (filter_cons_True (λ o, Ls.isRow o = true)) by done.
    exact (f_equal S IH).
Qed.

End WithManager.

End DriverSpec.

(** *** The methods on a manager kept in memory *)

Lemma NewDriver_unread_default_witness :
  let cfg := DriverOps.mkDriverConfig "/mnt" "big" in
  let req := v.mkCreateRequest "a" ∅ in
  DriverOps.NewDriver cfg [] = (inr (DriverOps.mkDriver "big"), [])
  ∧ DriverOps.Create (DriverOps.mkDriver "big") req []
    = (Some (Errorf "couldn't convert specified size [%s] into bytes"
               [AStr "big"]),
       [], [Plugin.FromHumanSize]).
Proof.
  intros cfg req. split; [reflexivity|].
  apply (DriverSpec.NewDriver_unread_default cfg [] [] []
           (DriverOps.mkDriver "big") req (Errno "EINVAL")).
  - reflexivity.
  - reflexivity.
  - reflexivity.
Defined.

Lemma Create_reads_name_and_size_only_witness :
  let req := v.mkCreateRequest "a" {[ "size" := "1G"; "inode" := "5" ]} in
  let req' := v.mkCreateRequest "a" {[ "size" := "1G" ]} in
  DriverOps.Create (DriverOps.mkDriver "512M") req []
  = DriverOps.Create (DriverOps.mkDriver "big") req' [].
Proof.
  intros req req'.
  apply (DriverSpec.Create_reads_name_and_size_only
           (DriverOps.mkDriver "512M") (DriverOps.mkDriver "big") req req' []).
  - reflexivity.
  - vm_compute. reflexivity.
Defined.

Lemma List_names_in_order_witness :
  let vols := [manager.mkVolume "a" 536870912 0 "/mnt/a";
               manager.mkVolume "b" 1073741824 7 "/mnt/b"] in
  ∃ listed,
    (manager.List vols).1 = inr listed
    ∧ v.Name <$> [v.mkVolume "a" ""; v.mkVolume "b" ""]
      = manager.Name <$> listed
    ∧ length [v.mkVolume "a" ""; v.mkVolume "b" ""] = length listed
    ∧ Forall (λ vol, v.Mountpoint vol = "")
        [v.mkVolume "a" ""; v.mkVolume "b" ""].
Proof.
  intros vols.
  apply (DriverSpec.List_names_in_order (DriverOps.mkDriver "512M") vols).
  reflexivity.
Defined.

Example lsAction_sample :
  Ls.lsAction "/mnt" [manager.mkVolume "a" 536870912 0 "/mnt/a";
                      manager.mkVolume "b" 1073741824 7 "/mnt/b"]
  = (None,
     [manager.mkVolume "a" 536870912 0 "/mnt/a";
      manager.mkVolume "b" 1073741824 7 "/mnt/b"],
     [Ls.Header; Ls.Row "a" "512M" 0; Ls.Row "b" "1G" 7; Ls.Flush]).
Proof. reflexivity. Qed.

Example Create_then_Get_sample :
  let d := DriverOps.mkDriver "512M" in
  let after := (DriverOps.Create d (v.mkCreateRequest "a" ∅) []).1.2 in
  after = [manager.mkVolume "a" 536870912 0 "/mnt/a"]
  ∧ (DriverOps.Get d "a" after).1.1 = inr (v.mkVolume "a" "/mnt/a")
  ∧ (DriverOps.Get d "b" after).1.1
    = inl (Errorf "volume %s not found" [AStr "b"]).
Proof. vm_compute. by split_and!. Qed.

(** ** More about the driver's lock *)

Module PluginMore.
Import Plugin.

Lemma holdsLock_todo g g' : todo g = todo g' → holdsLock g = holdsLock g'.
Proof. unfold holdsLock. by intros ->. Qed.

Lemma serve_ownLockInv size reqs : ownLockInv (serve (NewDriver size) reqs).
Proof.
  unfold ownLockInv, serve. cbn. apply Forall_fmap, Forall_true.
  intros r. cbn. by destruct r.
Qed.

Lemma step_ownLockInv i s s' :
  ownLockInv s → step ByValue i s = Some s' → ownLockInv s'.
Proof.
  unfold ownLockInv. intros Hinv. unfold step.
  destruct (goroutines s !! i) as [g|] eqn:Hi; [|done].
  destruct (Forall_lookup_1 _ _ _ _ Hinv Hi) as [Hb Hm].
  destruct (todo g) as [|ins rest] eqn:Htodo; [done|].
  assert (Hnext : ∀ d held, bracketed held rest = true →
                            holdsLock (mkGoroutine d rest) = held).
  { intros d held Hb'. rewrite <- (PluginSpec.bracketed_holdsLock _ _ Hb').
    by apply holdsLock_todo. }
  assert (Hheld : holdsLock g = match ins with
                                | Enter _ | Leave _ | Unlock => true
                                | _ => false
                                end).
  { unfold holdsLock. rewrite Htodo. by destruct ins. }
  rewrite Hheld in Hb, Hm.
  destruct ins; cbn in Hb.
  - intros [= <-]. cbn. apply Forall_insert; [done|]. cbn.
    by rewrite (Hnext _ _ Hb).
  - rewrite Hm. intros [= <-]. cbn. apply Forall_insert; [done|]. cbn.
    by rewrite (Hnext _ _ Hb).
  - intros [= <-]. cbn. apply Forall_insert; [done|]. cbn.
    by rewrite (Hnext _ _ Hb).
  - intros [= <-]. cbn. apply Forall_insert; [done|]. cbn.
    by rewrite (Hnext _ _ Hb).
  - intros [= <-]. cbn. apply Forall_insert; [done|]. cbn.
    by rewrite (Hnext _ _ Hb).
Qed.

Lemma run_ownLockInv schedule :
  ∀ s s', ownLockInv s → run ByValue schedule s = Some s' → ownLockInv s'.
Proof.
  induction schedule as [|i rest IH]; intros s s' Hinv; cbn.
  - by intros [= <-].
  - destruct (step ByValue i s) as [s1|] eqn:Hstep; [|done].
    apply IH. by eapply step_ownLockInv.
Qed.

(** X19. As the source declares the methods, no call ever waits for the
    lock: in every state the server can reach, under every schedule,
    each goroutine that has not finished can take its next step, [Lock]
    included. *)
Theorem value_receiver_never_blocks size reqs schedule s i g :
  run ByValue schedule (serve (NewDriver size) reqs) = Some s →
  goroutines s !! i = Some g →
  todo g ≠ [] →
  is_Some (step ByValue i s).
Proof.
  intros Hrun Hi Htodo.
  pose proof (run_ownLockInv _ _ _ (serve_ownLockInv size reqs) Hrun) as Hinv.
  destruct (Forall_lookup_1 _ _ _ _ Hinv Hi) as [_ Hm].
  unfold step. rewrite Hi.
  destruct (todo g) as [|ins rest] eqn:Hg; [done|].
  assert (Hheld : ins = Lock → holdsLock g = false).
  { intros ->. unfold holdsLock. by rewrite Hg. }
  destruct ins; try done.
  rewrite Hheld in Hm by done. by rewrite Hm.
Qed.

End PluginMore.

Lemma value_receiver_never_blocks_witness :
  ∃ s g,
    Plugin.run Plugin.ByValue [0; 0; 0; 1] Plugin.twoCreates = Some s
    ∧ Plugin.goroutines s !! 1 = Some g
    ∧ Plugin.todo g
      = [Plugin.Lock; Plugin.Enter Plugin.MgrCreate;
         Plugin.Leave Plugin.MgrCreate; Plugin.Unlock]
    ∧ is_Some (Plugin.step Plugin.ByValue 1 s).
Proof.
  destruct (Plugin.run Plugin.ByValue [0; 0; 0; 1] Plugin.twoCreates)
    as [s|] eqn:Hrun; [|by vm_compute in Hrun].
  destruct (Plugin.goroutines s !! 1) as [g|] eqn:Hg;
    [|vm_compute in Hrun; injection Hrun as <-; by vm_compute in Hg].
  exists s, g. split_and!; [done|done| |].
  - vm_compute in Hrun. injection Hrun as <-. vm_compute in Hg.
    by injection Hg as <-.
  - apply (PluginMore.value_receiver_never_blocks "512M"
             [Plugin.Create "a"; Plugin.Create "b"] [0; 0; 0; 1] s 1 g).
    + exact Hrun.
    + exact Hg.
    + vm_compute in Hrun. injection Hrun as <-. vm_compute in Hg.
      by injection Hg as <-.
Defined.

(** ** The counter after [NewControl] *)

(** X4. After a successful [NewControl], [lastProjectId] is the maximum of
    the configured floor (0 when there is none) and the cached ids; and
    where it is below the largest [uint32], the id the next new path
    receives is above the floor and above every cached id. *)
Theorem NewControl_counter {K : Type} `{!Kernel K} cfg (w : World K) c w' :
  NewControl cfg w = (c, None, w') →
  is_max_of (default 0%N (StartingProjectId cfg)) (projectIdCache c)
    (lastProjectId c)
  ∧ ((lastProjectId c < uint32_max)%N →
     (default 0%N (StartingProjectId cfg) < uint32_add (lastProjectId c) 1)%N
     ∧ ∀ p id, projectIdCache c !! p = Some id →
               (id < uint32_add (lastProjectId c) 1)%N).
Proof.
  intros Hmax%NewControl_lastProjectId_is_max. split; [done|].
  destruct Hmax as (Hge & Hall & _). intros Hroom.
  rewrite uint32_add_1_no_wrap by done.
  split; [lia|]. intros p id Hp%Hall. lia.
Qed.

Lemma NewControl_counter_witness :
  is_max_of 3%N (projectIdCache Run.control) 7%N
  ∧ ((7 < uint32_max)%N →
     (3 < uint32_add 7 1)%N
     ∧ ∀ p id, projectIdCache Run.control !! p = Some id →
               (id < uint32_add 7 1)%N).
Proof.
  apply (NewControl_counter (Sample.config (Some 3%N)) (Sample.world 7 true)
           Run.control
           (NewControl (Sample.config (Some 3%N)) (Sample.world 7 true)).2).
  vm_compute. reflexivity.
Defined.
